(** * Sweep-path planning for a robotic mower

    A shallow embedding of the C++ sources of work_robot_algo:
    - [Geometry]: [Point], [Polygon] and [isInside] of TestGcc/geometry.h;
    - [Binary64]: [distance] and [isInside] of TestGcc/geometry.h on binary64
      numbers;
    - [Planner]: the [SweepPathPlanner] declared in TestGcc/sweep_planner.h;
    - [Robot]: the [Robot] class of TestGcc/robot.h and robot.cpp.

    Numbers.  A C++ [double] is read in one of two ways.

    Where a statement depends only on how given numbers compare and on the
    control flow that follows, a finite [double] is the real number it
    denotes: comparisons of doubles and of those reals agree.  [isInside],
    the planner, the robot and the simulation are modelled this way, with
    [+], [-], [*], [/] the operations of [R] and [std::atan2] the principal
    argument built from [atan]; no statement below relies on the value such
    an operation returns beyond what rounding preserves, unless it says so.

    Where a statement depends on the value an arithmetic operation returns,
    a [double] is a binary64 number, with the correctly rounded operations of
    IEEE 754 ([PrimFloat], specified by [SpecFloat]), each operation of an
    expression rounded on its own.  [distance] is modelled this way, and so
    is [isInside] a second time, for the statements that depend on the value
    of its intersection formula. *)

From Stdlib Require Import Reals Lra Lia List Bool Arith ZArith.
From Stdlib Require Floats.
Import ListNotations.

Open Scope R_scope.

(** ** Comparisons on [double] as boolean tests *)

Module Double.

Definition ltb (a b : R) : bool := if Rlt_dec a b then true else false.
Definition leb (a b : R) : bool := if Rle_dec a b then true else false.
Definition eqb (a b : R) : bool := if Req_dec_T a b then true else false.

(** [a > b], [a >= b] and [a != b] as C++ writes them. *)
Definition gtb (a b : R) : bool := ltb b a.
Definition geb (a b : R) : bool := leb b a.
Definition neqb (a b : R) : bool := negb (eqb a b).

(** [std::min] and [std::max] of <algorithm>:
    [min (a, b) = (b < a) ? b : a] and [max (a, b) = (a < b) ? b : a]. *)
Definition min (a b : R) : R := if ltb b a then b else a.
Definition max (a b : R) : R := if ltb a b then b else a.

End Double.

(** ** geometry.h *)

Module Geometry.

(** [struct Point { double x; double y; }] *)
Module Point.
Record t : Type := mk { x : R; y : R }.
End Point.
Abbreviation Point := Point.t.

(** [struct Polygon { std::vector<Point> vertices; }] *)
Record Polygon : Type := mkPolygon { vertices : list Point }.

(** *** isInside *)

(** The horizontal-segment test of the loop body:
    [p1.y == p2.y && p1.y == y && x >= min (p1.x, p2.x) && x <= max (p1.x, p2.x)]. *)
Definition on_horizontal_segment (p p1 p2 : Point) : bool :=
  Double.eqb (Point.y p1) (Point.y p2)
  && Double.eqb (Point.y p1) (Point.y p)
  && Double.geb (Point.x p) (Double.min (Point.x p1) (Point.x p2))
  && Double.leb (Point.x p) (Double.max (Point.x p1) (Point.x p2)).

(** The vertical-segment test:
    [p1.x == p2.x && p1.x == x && y >= min (p1.y, p2.y) && y <= max (p1.y, p2.y)]. *)
Definition on_vertical_segment (p p1 p2 : Point) : bool :=
  Double.eqb (Point.x p1) (Point.x p2)
  && Double.eqb (Point.x p1) (Point.x p)
  && Double.geb (Point.y p) (Double.min (Point.y p1) (Point.y p2))
  && Double.leb (Point.y p) (Double.max (Point.y p1) (Point.y p2)).

(** The crossing test:
    [(p1.y < y && p2.y >= y) || (p2.y < y && p1.y >= y)]. *)
Definition crosses (p p1 p2 : Point) : bool :=
  (Double.ltb (Point.y p1) (Point.y p) && Double.geb (Point.y p2) (Point.y p))
  || (Double.ltb (Point.y p2) (Point.y p) && Double.geb (Point.y p1) (Point.y p)).

(** Division that reports a zero divisor instead of computing with it. *)
Definition checked_div (a b : R) : option R :=
  if Double.eqb b 0 then None else Some (a / b).

(** [x_intersection = (y - p1.y) * (p2.x - p1.x) / (p2.y - p1.y) + p1.x];
    [None] when the divisor [p2.y - p1.y] is zero. *)
Definition x_intersection (p p1 p2 : Point) : option R :=
  match checked_div ((Point.y p - Point.y p1) * (Point.x p2 - Point.x p1))
                    (Point.y p2 - Point.y p1) with
  | Some q => Some (q + Point.x p1)
  | None => None
  end.

(** What one iteration of the edge loop does: leave the function with a
    value, or go on with the updated [inside] flag. *)
Inductive step : Type :=
| Return (result : bool)
| Continue (inside : bool).

(** The body of the [for] loop for the edge [(p1, p2)].  [None] is a division
    by zero in the intersection formula. *)
Definition edge_step (p p1 p2 : Point) (inside : bool) : option step :=
  if on_horizontal_segment p p1 p2 then Some (Return true)
  else if on_vertical_segment p p1 p2 then Some (Return true)
  else if crosses p p1 p2 then
    match x_intersection p p1 p2 with
    | Some xi =>
        Some (Continue (if Double.gtb xi (Point.x p) then negb inside else inside))
    | None => None
    end
  else Some (Continue inside).

(** [for (int i = 0; i <= num_vertices; ++i)] over the remaining values of
    [i], with [p2 = vertices[i % num_vertices]] and [p1 = p2] at the end of
    each iteration. *)
Fixpoint edge_loop (p : Point) (vs : list Point) (num_vertices : nat)
    (indices : list nat) (p1 : Point) (inside : bool) : option bool :=
  match indices with
  | [] => Some inside
  | i :: rest =>
      let p2 := nth (i mod num_vertices) vs p1 in
      match edge_step p p1 p2 inside with
      | None => None
      | Some (Return result) => Some result
      | Some (Continue inside') => edge_loop p vs num_vertices rest p2 inside'
      end
  end.

(** [isInside (p, polygon)]; [None] would be a division by zero. *)
Definition isInside (p : Point) (polygon : Polygon) : option bool :=
  let num_vertices := length (vertices polygon) in
  if (num_vertices <? 3)%nat then Some false
  else
    match vertices polygon with
    | [] => Some false
    | v0 :: _ =>
        edge_loop p (vertices polygon) num_vertices (seq 0 (S num_vertices)) v0 false
    end.

(** *** The boundary of a polygon, for the statements about [isInside] *)

(** [(p1, p2)] is an edge of the polygon: [p1 = vertices[i]] and
    [p2 = vertices[(i + 1) mod n]] for an index [i] of the vertex list. *)
Definition is_edge (polygon : Polygon) (p1 p2 : Point) : Prop :=
  exists i : nat,
    (i < length (vertices polygon))%nat
    /\ nth_error (vertices polygon) i = Some p1
    /\ nth_error (vertices polygon) ((i + 1) mod length (vertices polygon))
       = Some p2.

(** [p] lies on the horizontal segment from [p1] to [p2]: the endpoints share
    [p]'s y and [p]'s x is within their x-range. *)
Definition lies_on_horizontal (p p1 p2 : Point) : Prop :=
  Point.y p1 = Point.y p /\ Point.y p2 = Point.y p
  /\ Rmin (Point.x p1) (Point.x p2) <= Point.x p <= Rmax (Point.x p1) (Point.x p2).

(** [p] lies on the vertical segment from [p1] to [p2]. *)
Definition lies_on_vertical (p p1 p2 : Point) : Prop :=
  Point.x p1 = Point.x p /\ Point.x p2 = Point.x p
  /\ Rmin (Point.y p1) (Point.y p2) <= Point.y p <= Rmax (Point.y p1) (Point.y p2).

End Geometry.

(** ** sweep_planner.h *)

Module Planner.
Import Geometry.

(** Modelled from the spec: the error taxonomy of section 7 as far as the
    planner raises it.  sweep_planner.cpp, which defines the constructor,
    [generatePath] and [getWaypoints] declared in sweep_planner.h, is not among
    the sources. *)
Inductive PlannerError : Type :=
| InvalidWidth.

(** The private members declared in sweep_planner.h. *)
Record SweepPathPlanner : Type := mkSweepPathPlanner {
  area_to_mow_ : Polygon;
  cutting_width_ : R;
  waypoints_ : list Point
}.

(** Modelled from the spec: the constructor of sweep_planner.cpp.  It stores
    area and width; "planner construction with width <= 0 is an error
    condition" (section 3), surfaced as a construction failure (section 7). *)
Definition construct (area : Polygon) (cutting_width : R)
  : PlannerError + SweepPathPlanner :=
  if Double.leb cutting_width 0 then inl InvalidWidth
  else inr {| area_to_mow_ := area;
              cutting_width_ := cutting_width;
              waypoints_ := [] |}.

(** Modelled from the spec: step 1 of generate, "min_x, max_x from all vertex
    x-coordinates; min_y, max_y from all vertex y-coordinates".  [coord] is the
    coordinate read; the extent of no vertex at all is never used. *)
Definition min_coord (coord : Point -> R) (vs : list Point) : R :=
  match vs with
  | [] => 0
  | v0 :: rest => fold_left (fun m v => Rmin m (coord v)) rest (coord v0)
  end.

(** Modelled from the spec: the maximum of step 1, as [min_coord]. *)
Definition max_coord (coord : Point -> R) (vs : list Point) : R :=
  match vs with
  | [] => 0
  | v0 :: rest => fold_left (fun m v => Rmax m (coord v)) rest (coord v0)
  end.

(** Modelled from the spec: the two waypoints of one sweep at height
    [sweep_y], "one at each horizontal extreme", min_x first when the sweep
    travels left-to-right. *)
Definition sweep (min_x max_x sweep_y : R) (left_to_right : bool) : list Point :=
  if left_to_right
  then [Point.mk min_x sweep_y; Point.mk max_x sweep_y]
  else [Point.mk max_x sweep_y; Point.mk min_x sweep_y].

(** Modelled from the spec: the loop of step 3, "while current_y <= max_y -
    half: emit two waypoints ... in an x-direction that alternates ...
    Advance current_y += width".  [limit] is [max_y - half]; [fuel] bounds the
    number of iterations, and the loop stops early when it is used up. *)
Fixpoint sweep_lines (fuel : nat) (min_x max_x limit width : R)
    (current_y : R) (left_to_right : bool) : list Point :=
  match fuel with
  | O => []
  | S fuel' =>
      if Double.leb current_y limit
      then sweep min_x max_x current_y left_to_right
           ++ sweep_lines fuel' min_x max_x limit width
                (current_y + width) (negb left_to_right)
      else []
  end.

(** Modelled from the spec: the number of iterations granted to the loop of
    step 3, the least integer above height / width ("bounded by region height
    / width", section 5). *)
Definition sweep_fuel (min_y max_y width : R) : nat :=
  Z.to_nat (up ((max_y - min_y) / width)).

(** Modelled from the spec: the path of generate, steps 1 to 5 of section
    4.2: nothing for fewer than 3 vertices or a height that is zero or
    negative, one left-to-right sweep at the vertical midpoint when the first
    sweep line already fails the loop condition, the sweep lines of the loop
    otherwise. *)
Definition sweep_path (area : Polygon) (width : R) : list Point :=
  let vs := vertices area in
  if (length vs <? 3)%nat then []
  else
    let min_x := min_coord Point.x vs in
    let max_x := max_coord Point.x vs in
    let min_y := min_coord Point.y vs in
    let max_y := max_coord Point.y vs in
    if Double.leb max_y min_y then []
    else
      let half := width / 2 in
      if Double.leb (min_y + half) (max_y - half)
      then sweep_lines (sweep_fuel min_y max_y width) min_x max_x
             (max_y - half) width (min_y + half) true
      else sweep min_x max_x ((min_y + max_y) / 2) true.

(** Modelled from the spec: [generatePath] of sweep_planner.cpp, step 6:
    "cache and return the resulting ordered sequence".  The result is the
    planner with its cache written, and the returned waypoints. *)
Definition generatePath (planner : SweepPathPlanner)
  : SweepPathPlanner * list Point :=
  let path := sweep_path (area_to_mow_ planner) (cutting_width_ planner) in
  ({| area_to_mow_ := area_to_mow_ planner;
      cutting_width_ := cutting_width_ planner;
      waypoints_ := path |}, path).

(** Modelled from the spec: [getWaypoints] of sweep_planner.cpp, "returns the
    sequence from the most recent generate call (or empty if never called)". *)
Definition getWaypoints (planner : SweepPathPlanner) : list Point :=
  waypoints_ planner.

(** *** The vocabulary of the statements about [generatePath] *)

(** The four corners of the axis-aligned rectangle from [(min_x, min_y)] to
    [(max_x, max_y)], in the order the tests list them. *)
Definition corners (min_x min_y max_x max_y : R) : list Point :=
  [Point.mk min_x min_y; Point.mk min_x max_y;
   Point.mk max_x max_y; Point.mk max_x min_y].

(** The polygon has 4 vertices, and they are the corners of that rectangle,
    starting anywhere and in either direction. *)
Definition axis_aligned_rectangle (area : Polygon)
    (min_x min_y max_x max_y : R) : Prop :=
  min_x <= max_x /\ min_y <= max_y
  /\ length (vertices area) = 4%nat
  /\ (forall c, In c (corners min_x min_y max_x max_y) -> In c (vertices area))
  /\ (forall v, In v (vertices area) -> In v (corners min_x min_y max_x max_y)).

(** The height of sweep [k], counted from 0. *)
Definition sweep_y (min_y width : R) (k : nat) : R :=
  min_y + width / 2 + INR k * width.

(** Sweeps 0 to [count - 1], two waypoints each, the even ones left-to-right
    and the odd ones right-to-left. *)
Definition boustrophedon (min_x max_x min_y width : R) (count : nat)
  : list Point :=
  flat_map (fun k => sweep min_x max_x (sweep_y min_y width k) (Nat.even k))
           (seq 0 count).

(** What a caller gets from building a planner and asking for its path, as
    the test and the simulation do. *)
Definition plan (area : Polygon) (cutting_width : R)
  : PlannerError + list Point :=
  match construct area cutting_width with
  | inl e => inl e
  | inr planner => inr (snd (generatePath planner))
  end.

End Planner.

(** ** robot.h and robot.cpp *)

Module Robot.
Import Geometry.

(** The private members of [class Robot]. *)
Record t : Type := mk {
  current_position_ : Point;
  current_orientation_deg_ : R
}.

(** The lines written to [std::cout], by what they report. *)
Inductive Message : Type :=
| Initialized (position : Point) (orientation_deg : R)
| Moving (old_position new_position : Point) (orientation_deg : R).

(** [M_PI] of <cmath>. *)
Definition M_PI : R := PI.

(** [std::atan2 (y, x)] of <cmath>: the angle of the vector [(x, y)] in
    [(-PI, PI]], and 0 for the null vector. *)
Definition atan2 (y x : R) : R :=
  if Double.ltb 0 x then atan (y / x)
  else if Double.ltb x 0 then
    if Double.leb 0 y then atan (y / x) + PI else atan (y / x) - PI
  else if Double.ltb 0 y then PI / 2
  else if Double.ltb y 0 then - PI / 2
  else 0.

(** [Robot::Robot (start_pos, start_orientation_deg)] *)
Definition construct (start_pos : Point) (start_orientation_deg : R)
  : t * list Message :=
  ({| current_position_ := start_pos;
      current_orientation_deg_ := start_orientation_deg |},
   [Initialized start_pos start_orientation_deg]).

(** [Robot::moveTo (target_point)]: the robot after the move and the status
    line it prints. *)
Definition moveTo (robot : t) (target_point : Point) : t * list Message :=
  let old_position := current_position_ robot in
  let delta_x := Point.x target_point - Point.x (current_position_ robot) in
  let delta_y := Point.y target_point - Point.y (current_position_ robot) in
  let orientation :=
    if Double.neqb delta_x 0 || Double.neqb delta_y 0
    then atan2 delta_y delta_x * (180 / M_PI)
    else current_orientation_deg_ robot in
  ({| current_position_ := target_point;
      current_orientation_deg_ := orientation |},
   [Moving old_position target_point orientation]).

(** [Robot::getPosition] and [Robot::getOrientation] *)
Definition getPosition (robot : t) : Point := current_position_ robot.
Definition getOrientation (robot : t) : R := current_orientation_deg_ robot.

End Robot.

(** ** The simulation of TestGcc/.vscode/mingw_test.cpp *)

Module Simulation.
Import Geometry.

(** The loop of [main]: [robot.moveTo (waypoints[i])] for every waypoint in
    order, with the status lines in the order they are printed. *)
Fixpoint drive (robot : Robot.t) (waypoints : list Point)
  : Robot.t * list Robot.Message :=
  match waypoints with
  | [] => (robot, [])
  | w :: rest =>
      let (robot', printed) := Robot.moveTo robot w in
      let (robot'', printed') := drive robot' rest in
      (robot'', printed ++ printed')
  end.

End Simulation.

(** ** The polygons of TestGcc/test_planner.cpp *)

Module TestPlanner.
Import Geometry.

Definition square : Polygon :=
  mkPolygon [Point.mk 0 0; Point.mk 0 4; Point.mk 4 4; Point.mk 4 0].

Definition l_shape : Polygon :=
  mkPolygon [Point.mk 0 0; Point.mk 0 3; Point.mk 1 3;
             Point.mk 1 1; Point.mk 3 1; Point.mk 3 0].

End TestPlanner.

(** ** test_planner.cpp: the comparison helper *)

Module TestSupport.

(** [are_doubles_equal (a, b, epsilon)]: [std::fabs (a - b) < epsilon]. *)
Definition are_doubles_equal (a b epsilon : R) : bool :=
  Double.ltb (Rabs (a - b)) epsilon.

(** The default argument [epsilon = 1e-5]. *)
Definition default_epsilon : R := 1 / 100000.

End TestSupport.

(** ** isInside: what the loop has seen when it ends *)

Module EdgeLoop.
Import Geometry.

(** The vertex held by [p1] when the loop over [indices] ends without an
    early return: the last [p2] read, or the initial [p1]. *)
Fixpoint end_vertex (vs : list Point) (num_vertices : nat)
    (indices : list nat) (p1 : Point) : Point :=
  match indices with
  | [] => p1
  | i :: rest => end_vertex vs num_vertices rest (nth (i mod num_vertices) vs p1)
  end.

End EdgeLoop.

(** ** [main] of TestGcc/.vscode/mingw_test.cpp *)

Module MingwTest.
Import Geometry.

(** The lines [main] and the robot write to [std::cout], by what they
    report. *)
Inductive Output : Type :=
| LawnDefined (lawn_vertices : list Point) (cutting_width : R)
| PathGenerated (waypoint_count : nat)
| NoWaypoints
| ReasonHeightLessThanWidth (height cutting_width : R)
| PlannerShouldMakeSinglePass
| ReasonInvalidDimensions
| RobotStatus (m : Robot.Message)
| StartingSimulation
| MovingToWaypoint (number total : nat) (target : Point)
| SimulationComplete
| FinalPose (position : Point) (orientation_deg : R).

(** The loop over [lawn_vertices] that updates [min_y_coord] and
    [max_y_coord], both started at [lawn_vertices[0].y]. *)
Definition y_extent (lawn_vertices : list Point) (v0 : Point) : R * R :=
  fold_left
    (fun (acc : R * R) (v : Point) =>
       let (min_y_coord, max_y_coord) := acc in
       (if Double.ltb (Point.y v) min_y_coord then Point.y v else min_y_coord,
        if Double.gtb (Point.y v) max_y_coord then Point.y v else max_y_coord))
    lawn_vertices (Point.y v0, Point.y v0).

(** The diagnostic printed after "No waypoints generated". *)
Definition diagnose (lawn_area : Polygon) (lawn_vertices : list Point)
    (cutting_width : R) : list Output :=
  if (3 <=? length (vertices lawn_area))%nat && Double.gtb cutting_width 0
  then
    match lawn_vertices with
    | [] => []
    | v0 :: _ =>
        let (min_y_coord, max_y_coord) := y_extent lawn_vertices v0 in
        if Double.ltb (max_y_coord - min_y_coord) cutting_width
           && Double.gtb max_y_coord min_y_coord
        then [ReasonHeightLessThanWidth (max_y_coord - min_y_coord) cutting_width;
              PlannerShouldMakeSinglePass]
        else if Double.leb max_y_coord min_y_coord
        then [ReasonInvalidDimensions]
        else []
    end
  else [].

(** The simulation loop: for [i] from [done] on, announce waypoint
    [i + 1] of [total] and command the robot to it. *)
Fixpoint simulation_loop (robot : Robot.t) (waypoints : list Point)
    (done total : nat) : Robot.t * list Output :=
  match waypoints with
  | [] => (robot, [])
  | w :: rest =>
      let (robot', status) := Robot.moveTo robot w in
      let (robot'', printed) := simulation_loop robot' rest (S done) total in
      (robot'',
       MovingToWaypoint (done + 1) total w :: map RobotStatus status ++ printed)
  end.

(** [main], with the lawn and the cutting width it hard-codes as arguments and
    [planner_path] standing for [SweepPathPlanner (lawn_area, cutting_width)]
    followed by [generatePath ()].  The exit status is 0 on both paths. *)
Definition main (lawn_vertices : list Point) (cutting_width : R)
    (planner_path : Polygon -> R -> list Point) : list Output :=
  let lawn_area := mkPolygon lawn_vertices in
  let waypoints := planner_path lawn_area cutting_width in
  [LawnDefined lawn_vertices cutting_width;
   PathGenerated (length waypoints)]
  ++ match waypoints with
     | [] => NoWaypoints :: diagnose lawn_area lawn_vertices cutting_width
     | w0 :: _ =>
         let (robot, status) := Robot.construct w0 0 in
         let (robot', printed) :=
           simulation_loop robot waypoints 0 (length waypoints) in
         map RobotStatus status
         ++ [StartingSimulation]
         ++ printed
         ++ [SimulationComplete;
             FinalPose (Robot.getPosition robot') (Robot.getOrientation robot')]
     end.

(** The y-coordinates of [lawn_vertices] span exactly [[lo, hi]]: every one
    lies between [lo] and [hi], and both are the y of a vertex. *)
Definition spans_y (lawn_vertices : list Point) (lo hi : R) : Prop :=
  (forall v, In v lawn_vertices -> lo <= Point.y v <= hi)
  /\ (exists v, In v lawn_vertices /\ Point.y v = lo)
  /\ (exists v, In v lawn_vertices /\ Point.y v = hi).

(** The positions a status line of the robot reports: where from and where
    to. *)
Definition leg (m : Robot.Message) : Point * Point :=
  match m with
  | Robot.Initialized position _ => (position, position)
  | Robot.Moving old_position new_position _ => (old_position, new_position)
  end.

End MingwTest.

(** ** geometry.h: distance on binary64 numbers *)

Module Binary64.
Import PrimFloat SpecFloat FloatOps.

(** [struct Point { double x; double y; }] with binary64 coordinates. *)
Module Point.
Record t : Type := mk { x : float; y : float }.
End Point.
Abbreviation Point := Point.t.

(** [std::pow (a, 2)]: the square, correctly rounded. *)
Definition pow2 (a : float) : float := (a * a)%float.

(** [distance]: [sqrt (pow (p2.x - p1.x, 2) + pow (p2.y - p1.y, 2))]. *)
Definition distance (p1 p2 : Point) : float :=
  sqrt (pow2 (Point.x p2 - Point.x p1) + pow2 (Point.y p2 - Point.y p1))%float.

(** [a] is a finite number: neither an infinity nor NaN. *)
Definition finite (a : float) : bool :=
  match Prim2SF a with
  | S754_zero _ | S754_finite _ _ _ => true
  | S754_infinity _ | S754_nan => false
  end.

(** Both coordinates of [p] are finite, as the data model asks of a point. *)
Definition finite_point (p : Point) : bool :=
  finite (Point.x p) && finite (Point.y p).


(** *** isInside *)

(** [struct Polygon { std::vector<Point> vertices; }] *)
Record Polygon : Type := mkPolygon { vertices : list Point }.

(** [std::min] and [std::max] of <algorithm>:
    [min (a, b) = (b < a) ? b : a] and [max (a, b) = (a < b) ? b : a]. *)
Definition min (a b : float) : float := if (b <? a)%float then b else a.
Definition max (a b : float) : float := if (a <? b)%float then b else a.

(** [p1.y == p2.y && p1.y == y && x >= min (p1.x, p2.x) && x <= max (p1.x, p2.x)];
    [x >= m] is [m <= x]. *)
Definition on_horizontal_segment (p p1 p2 : Point) : bool :=
  (Point.y p1 =? Point.y p2)%float
  && (Point.y p1 =? Point.y p)%float
  && (min (Point.x p1) (Point.x p2) <=? Point.x p)%float
  && (Point.x p <=? max (Point.x p1) (Point.x p2))%float.

(** [p1.x == p2.x && p1.x == x && y >= min (p1.y, p2.y) && y <= max (p1.y, p2.y)]. *)
Definition on_vertical_segment (p p1 p2 : Point) : bool :=
  (Point.x p1 =? Point.x p2)%float
  && (Point.x p1 =? Point.x p)%float
  && (min (Point.y p1) (Point.y p2) <=? Point.y p)%float
  && (Point.y p <=? max (Point.y p1) (Point.y p2))%float.

(** [(p1.y < y && p2.y >= y) || (p2.y < y && p1.y >= y)]. *)
Definition crosses (p p1 p2 : Point) : bool :=
  ((Point.y p1 <? Point.y p)%float && (Point.y p <=? Point.y p2)%float)
  || ((Point.y p2 <? Point.y p)%float && (Point.y p <=? Point.y p1)%float).

(** [x_intersection = (y - p1.y) * (p2.x - p1.x) / (p2.y - p1.y) + p1.x],
    each of the five operations rounded; a zero divisor gives an infinity or
    NaN, as the hardware does. *)
Definition x_intersection (p p1 p2 : Point) : float :=
  ((Point.y p - Point.y p1) * (Point.x p2 - Point.x p1)
   / (Point.y p2 - Point.y p1) + Point.x p1)%float.

(** The body of the [for] loop for the edge [(p1, p2)]; [x_intersection > x]
    is [x < x_intersection]. *)
Definition edge_step (p p1 p2 : Point) (inside : bool) : Geometry.step :=
  if on_horizontal_segment p p1 p2 then Geometry.Return true
  else if on_vertical_segment p p1 p2 then Geometry.Return true
  else if crosses p p1 p2 then
    Geometry.Continue
      (if (Point.x p <? x_intersection p p1 p2)%float then negb inside else inside)
  else Geometry.Continue inside.

(** [for (int i = 0; i <= num_vertices; ++i)] with
    [p2 = vertices[i % num_vertices]] and [p1 = p2] at the end of each
    iteration. *)
Fixpoint edge_loop (p : Point) (vs : list Point) (num_vertices : nat)
    (indices : list nat) (p1 : Point) (inside : bool) : bool :=
  match indices with
  | [] => inside
  | i :: rest =>
      let p2 := nth (i mod num_vertices) vs p1 in
      match edge_step p p1 p2 inside with
      | Geometry.Return result => result
      | Geometry.Continue inside' => edge_loop p vs num_vertices rest p2 inside'
      end
  end.

(** [isInside (p, polygon)] *)
Definition isInside (p : Point) (polygon : Polygon) : bool :=
  let num_vertices := length (vertices polygon) in
  if (num_vertices <? 3)%nat then false
  else
    match vertices polygon with
    | [] => false
    | v0 :: _ =>
        edge_loop p (vertices polygon) num_vertices (seq 0 (S num_vertices)) v0 false
    end.

(** *** Polygons with axis-aligned edges, for the statements about [isInside] *)

(** The rectangle from [(x0, y0)] to [(x1, y1)], its corners in the order
    test_planner.cpp lists those of its square, [rectangle 0 0 4 4], and
    mingw_test.cpp those of its lawn. *)
Definition rectangle (x0 y0 x1 y1 : float) : Polygon :=
  mkPolygon [Point.mk x0 y0; Point.mk x0 y1; Point.mk x1 y1; Point.mk x1 y0].

(** The same rectangle, its corners listed in the other direction. *)
Definition rectangle_reversed (x0 y0 x1 y1 : float) : Polygon :=
  mkPolygon [Point.mk x0 y0; Point.mk x1 y0; Point.mk x1 y1; Point.mk x0 y1].

(** The L-shaped hexagon cut from the rectangle from [(x0, y0)] to
    [(x2, y2)] by removing the corner beyond [(x1, y1)]; the L-shape of
    test_planner.cpp is [l_shape 0 0 1 1 3 3]. *)
Definition l_shape (x0 y0 x1 y1 x2 y2 : float) : Polygon :=
  mkPolygon [Point.mk x0 y0; Point.mk x0 y2; Point.mk x1 y2;
             Point.mk x1 y1; Point.mk x2 y1; Point.mk x2 y0].

(** [x0 <= p.x <= x1] and [y0 <= p.y <= y1], as comparisons of doubles. *)
Definition in_box (x0 y0 x1 y1 : float) (p : Point) : bool :=
  (x0 <=? Point.x p)%float && (Point.x p <=? x1)%float
  && (y0 <=? Point.y p)%float && (Point.y p <=? y1)%float.

End Binary64.

(** *** Vocabulary on the specification of binary64 numbers *)

Module SpecFacts.
Import SpecFloat.

(** A number or an infinity whose sign bit is [s]; not NaN. *)
Definition signed (s : bool) (f : spec_float) : Prop :=
  match f with
  | S754_zero s' | S754_infinity s' | S754_finite s' _ _ => s' = s
  | S754_nan => False
  end.

(** A zero or a finite number. *)
Definition is_number (f : spec_float) : Prop :=
  match f with
  | S754_zero _ | S754_finite _ _ _ => True
  | _ => False
  end.

(** Anything but NaN. *)
Definition not_nan (f : spec_float) : Prop :=
  match f with S754_nan => False | _ => True end.

(** A zero of either sign. *)
Definition is_zero (f : spec_float) : Prop :=
  match f with S754_zero _ => True | _ => False end.

(** A zero or NaN: what a divisor must not be. *)
Definition unusable (f : spec_float) : Prop :=
  match f with S754_zero _ | S754_nan => True | _ => False end.

(** The place of a finite number in the order of the binary64 numbers: an
    integer that grows with the number, 0 for both zeros. *)
Definition rank (f : spec_float) : Z :=
  match f with
  | S754_finite s m e => cond_Zopp s ((e + 1074) * 2 ^ 53 + Zpos m)
  | _ => 0
  end.

Definition rk (a : PrimFloat.float) : Z := rank (FloatOps.Prim2SF a).

End SpecFacts.

(** ** isInside with the tests it evaluates *)

Module InsideTrace.
Import Geometry.

(** What [isInside] evaluates, in the order it evaluates it. *)
Inductive Event : Type :=
| HorizontalTest (p1 p2 : Point) (matched : bool)
| VerticalTest (p1 p2 : Point) (matched : bool)
| CrossingTest (p1 p2 : Point) (crossed : bool)
| Intersection (p1 p2 : Point) (toggled : bool).

(** An event of the ray-cast parity logic: the crossing test, or the
    intersection formula with its comparison and toggle. *)
Definition is_ray_cast (e : Event) : bool :=
  match e with
  | CrossingTest _ _ _ | Intersection _ _ _ => true
  | HorizontalTest _ _ _ | VerticalTest _ _ _ => false
  end.

(** The loop body for the edge [(p1, p2)] with the tests it evaluates. *)
Definition edge_step_traced (p p1 p2 : Point) (inside : bool)
  : option (step * list Event) :=
  if on_horizontal_segment p p1 p2
  then Some (Return true, [HorizontalTest p1 p2 true])
  else if on_vertical_segment p p1 p2
  then Some (Return true, [HorizontalTest p1 p2 false; VerticalTest p1 p2 true])
  else if crosses p p1 p2 then
    match x_intersection p p1 p2 with
    | Some xi =>
        let toggled := Double.gtb xi (Point.x p) in
        Some (Continue (if toggled then negb inside else inside),
              [HorizontalTest p1 p2 false; VerticalTest p1 p2 false;
               CrossingTest p1 p2 true; Intersection p1 p2 toggled])
    | None => None
    end
  else Some (Continue inside,
             [HorizontalTest p1 p2 false; VerticalTest p1 p2 false;
              CrossingTest p1 p2 false]).

(** The loop, with the events of its iterations in order. *)
Fixpoint edge_loop_traced (p : Point) (vs : list Point) (num_vertices : nat)
    (indices : list nat) (p1 : Point) (inside : bool)
  : option (bool * list Event) :=
  match indices with
  | [] => Some (inside, [])
  | i :: rest =>
      let p2 := nth (i mod num_vertices) vs p1 in
      match edge_step_traced p p1 p2 inside with
      | None => None
      | Some (Return result, events) => Some (result, events)
      | Some (Continue inside', events) =>
          match edge_loop_traced p vs num_vertices rest p2 inside' with
          | Some (result, later) => Some (result, events ++ later)
          | None => None
          end
      end
  end.

(** [isInside] with the events of the call. *)
Definition isInside_traced (p : Point) (polygon : Polygon)
  : option (bool * list Event) :=
  let num_vertices := length (vertices polygon) in
  if (num_vertices <? 3)%nat then Some (false, [])
  else
    match vertices polygon with
    | [] => Some (false, [])
    | v0 :: _ =>
        edge_loop_traced p (vertices polygon) num_vertices
          (seq 0 (S num_vertices)) v0 false
    end.

(** The events of an iteration that returns from a boundary test on the edge
    [(a, b)]. *)
Definition boundary_return (a b : Point) (events : list Event) : Prop :=
  events = [HorizontalTest a b true]
  \/ events = [HorizontalTest a b false; VerticalTest a b true].

End InsideTrace.

(** * Properties *)

(** ** Comparisons on doubles *)

Lemma ltb_spec (a b : R) : reflect (a < b) (Double.ltb a b).
Proof. unfold Double.ltb; destruct (Rlt_dec a b); constructor; assumption. Qed.

Lemma leb_spec (a b : R) : reflect (a <= b) (Double.leb a b).
Proof. unfold Double.leb; destruct (Rle_dec a b); constructor; assumption. Qed.

Lemma eqb_spec (a b : R) : reflect (a = b) (Double.eqb a b).
Proof. unfold Double.eqb; destruct (Req_dec_T a b); constructor; assumption. Qed.

Lemma min_Rmin (a b : R) : Double.min a b = Rmin a b.
Proof.
  unfold Double.min, Rmin; destruct (ltb_spec b a), (Rle_dec a b); lra.
Qed.

Lemma max_Rmax (a b : R) : Double.max a b = Rmax a b.
Proof.
  unfold Double.max, Rmax; destruct (ltb_spec a b), (Rle_dec a b); lra.
Qed.

(** Decide every comparison on doubles that occurs in the goal, closing the
    impossible branches by linear arithmetic. *)
Ltac decide_doubles :=
  unfold Double.gtb, Double.geb, Double.neqb, Double.min, Double.max in *;
  repeat match goal with
    | |- context [Double.ltb ?a ?b] =>
        destruct (ltb_spec a b); try lra
    | |- context [Double.leb ?a ?b] =>
        destruct (leb_spec a b); try lra
    | |- context [Double.eqb ?a ?b] =>
        destruct (eqb_spec a b); try lra
    end.

(** ** geometry.h *)

Section GeometryFacts.
Import Geometry.

Lemma point_eq_iff (p q : Point) :
  p = q <-> Point.x p = Point.x q /\ Point.y p = Point.y q.
Proof.
  split.
  - intros ->; split; reflexivity.
  - destruct p, q; simpl; intros [-> ->]; reflexivity.
Qed.

(** *** isInside: the loop body *)

Lemma on_horizontal_segment_iff (p p1 p2 : Point) :
  on_horizontal_segment p p1 p2 = true <-> lies_on_horizontal p p1 p2.
Proof.
  unfold on_horizontal_segment, lies_on_horizontal, Double.geb.
  rewrite min_Rmin, max_Rmax, !andb_true_iff.
  destruct (eqb_spec (Point.y p1) (Point.y p2)),
           (eqb_spec (Point.y p1) (Point.y p)),
           (leb_spec (Rmin (Point.x p1) (Point.x p2)) (Point.x p)),
           (leb_spec (Point.x p) (Rmax (Point.x p1) (Point.x p2)));
    split; intros; intuition (try discriminate; try lra).
Qed.

Lemma on_vertical_segment_iff (p p1 p2 : Point) :
  on_vertical_segment p p1 p2 = true <-> lies_on_vertical p p1 p2.
Proof.
  unfold on_vertical_segment, lies_on_vertical, Double.geb.
  rewrite min_Rmin, max_Rmax, !andb_true_iff.
  destruct (eqb_spec (Point.x p1) (Point.x p2)),
           (eqb_spec (Point.x p1) (Point.x p)),
           (leb_spec (Rmin (Point.y p1) (Point.y p2)) (Point.y p)),
           (leb_spec (Point.y p) (Rmax (Point.y p1) (Point.y p2)));
    split; intros; intuition (try discriminate; try lra).
Qed.

Lemma crosses_iff (p p1 p2 : Point) :
  crosses p p1 p2 = true <->
  (Point.y p1 < Point.y p <= Point.y p2) \/ (Point.y p2 < Point.y p <= Point.y p1).
Proof.
  unfold crosses, Double.geb.
  rewrite orb_true_iff, !andb_true_iff.
  destruct (ltb_spec (Point.y p1) (Point.y p)),
           (leb_spec (Point.y p) (Point.y p2)),
           (ltb_spec (Point.y p2) (Point.y p)),
           (leb_spec (Point.y p) (Point.y p1));
    split; intros; intuition (try discriminate; try lra).
Qed.

Lemma crosses_divisor_nonzero (p p1 p2 : Point) :
  crosses p p1 p2 = true -> Point.y p2 - Point.y p1 <> 0.
Proof. rewrite crosses_iff; lra. Qed.

Lemma crosses_x_intersection (p p1 p2 : Point) :
  crosses p p1 p2 = true ->
  x_intersection p p1 p2
  = Some ((Point.y p - Point.y p1) * (Point.x p2 - Point.x p1)
          / (Point.y p2 - Point.y p1) + Point.x p1).
Proof.
  intros H; apply crosses_divisor_nonzero in H.
  unfold x_intersection, checked_div.
  destruct (eqb_spec (Point.y p2 - Point.y p1) 0); [contradiction | reflexivity].
Qed.

Lemma horizontal_not_crossed (p p1 p2 : Point) :
  Point.y p1 = Point.y p2 -> crosses p p1 p2 = false.
Proof.
  intros H; destruct (crosses p p1 p2) eqn:E; [| reflexivity].
  apply crosses_divisor_nonzero in E; lra.
Qed.

Lemma edge_step_total (p p1 p2 : Point) (inside : bool) :
  exists s, edge_step p p1 p2 inside = Some s.
Proof.
  unfold edge_step.
  destruct (on_horizontal_segment p p1 p2); [eauto |].
  destruct (on_vertical_segment p p1 p2); [eauto |].
  destruct (crosses p p1 p2) eqn:E; [| eauto].
  rewrite (crosses_x_intersection _ _ _ E); eauto.
Qed.

Lemma edge_step_returns_true (p p1 p2 : Point) (inside result : bool) :
  edge_step p p1 p2 inside = Some (Return result) -> result = true.
Proof.
  unfold edge_step.
  destruct (on_horizontal_segment p p1 p2); [congruence |].
  destruct (on_vertical_segment p p1 p2); [congruence |].
  destruct (crosses p p1 p2); [| congruence].
  destruct (x_intersection p p1 p2); congruence.
Qed.

Lemma edge_step_on_boundary (p p1 p2 : Point) (inside : bool) :
  lies_on_horizontal p p1 p2 \/ lies_on_vertical p p1 p2 ->
  edge_step p p1 p2 inside = Some (Return true).
Proof.
  rewrite <- on_horizontal_segment_iff, <- on_vertical_segment_iff.
  unfold edge_step; intros [-> | ->]; [reflexivity |].
  destruct (on_horizontal_segment p p1 p2); reflexivity.
Qed.

(** *** isInside: the loop *)

Lemma edge_loop_total (p : Point) (vs : list Point) (n : nat) :
  forall indices p1 inside, exists b, edge_loop p vs n indices p1 inside = Some b.
Proof.
  induction indices as [| i rest IH]; intros p1 inside; simpl; [eauto |].
  destruct (edge_step_total p p1 (nth (i mod n) vs p1) inside) as [[b | f] ->];
    eauto.
Qed.

Lemma isInside_total (p : Point) (polygon : Polygon) :
  exists b, isInside p polygon = Some b.
Proof.
  unfold isInside.
  destruct (length (vertices polygon) <? 3)%nat; [eauto |].
  destruct (vertices polygon); [eauto | apply edge_loop_total].
Qed.

(** The vertex read at the [k]-th iteration of a loop over [indices]. *)
Let vertex_at (vs : list Point) (n : nat) (indices : list nat) (d : Point)
    (k : nat) : Point :=
  nth (nth k indices O mod n) vs d.

(** If the edge compared at some iteration has [p] on it, the loop returns
    true, whatever the earlier iterations did to the flag. *)
Lemma edge_loop_on_boundary (p d : Point) (vs : list Point) :
  vs <> [] ->
  forall indices p1 inside k,
    (k < length indices)%nat ->
    (let prev := match k with
                 | O => p1
                 | S k' => vertex_at vs (length vs) indices d k'
                 end in
     let cur := vertex_at vs (length vs) indices d k in
     lies_on_horizontal p prev cur \/ lies_on_vertical p prev cur) ->
    edge_loop p vs (length vs) indices p1 inside = Some true.
Proof.
  intros Hvs.
  assert (Hn : length vs <> O) by (destruct vs; simpl; congruence).
  assert (Hnth : forall i a b,
             nth (i mod length vs) vs a = nth (i mod length vs) vs b).
  { intros i a b; apply nth_indep, Nat.mod_upper_bound, Hn. }
  induction indices as [| i rest IH]; intros p1 inside k Hk Hon; simpl in Hk.
  - lia.
  - simpl. destruct k as [| k'].
    + unfold vertex_at in Hon; simpl in Hon.
      rewrite (Hnth i p1 d), (edge_step_on_boundary _ _ _ _ Hon); reflexivity.
    + destruct (edge_step_total p p1 (nth (i mod length vs) vs p1) inside)
        as [[b | inside'] E]; rewrite E.
      * apply edge_step_returns_true in E; congruence.
      * apply (IH _ inside' k'); [lia |].
        unfold vertex_at in *; simpl in Hon.
        destruct k' as [| k'']; simpl in *; [rewrite (Hnth i p1 d) |]; exact Hon.
Qed.

(** *** isInside: main results *)

(** C6: for every polygon with fewer than 3 vertices and every point p,
    isInside p polygon returns false. *)
Theorem isInside_degenerate_polygon (p : Point) (polygon : Polygon) :
  (length (vertices polygon) < 3)%nat ->
  isInside p polygon = Some false.
Proof.
  intros H; unfold isInside.
  apply Nat.ltb_lt in H; rewrite H; reflexivity.
Qed.

Lemma isInside_degenerate_polygon_witness :
  isInside (Point.mk 1 0)
    (mkPolygon [Point.mk 0 0; Point.mk 2 0]) = Some false.
Proof.
  apply isInside_degenerate_polygon; simpl; lia.
Defined.

(** C7: the division of the intersection formula never divides by zero.  An
    edge that passes the crossing test has p1.y <> p2.y, so its divisor
    p2.y - p1.y is not zero and the formula has a value; a horizontal edge
    fails the crossing test, and the loop body either leaves through a
    boundary test or keeps the flag; no loop body and no call of isInside
    ends in a division by zero. *)
Theorem isInside_division_is_safe :
  (forall p p1 p2 : Point,
      crosses p p1 p2 = true ->
      Point.y p1 <> Point.y p2
      /\ Point.y p2 - Point.y p1 <> 0
      /\ exists xi, x_intersection p p1 p2 = Some xi)
  /\ (forall p p1 p2 : Point,
         Point.y p1 = Point.y p2 ->
         crosses p p1 p2 = false
         /\ forall inside,
             edge_step p p1 p2 inside
             = Some (if on_horizontal_segment p p1 p2 || on_vertical_segment p p1 p2
                     then Return true else Continue inside))
  /\ (forall (p p1 p2 : Point) (inside : bool),
         edge_step p p1 p2 inside <> None)
  /\ (forall (p : Point) (polygon : Polygon), isInside p polygon <> None).
Proof.
  split; [| split; [| split]].
  - intros p p1 p2 H; pose proof (crosses_divisor_nonzero _ _ _ H) as Hd.
    repeat split; [lra | exact Hd |].
    rewrite (crosses_x_intersection _ _ _ H); eauto.
  - intros p p1 p2 H; split; [apply horizontal_not_crossed; exact H |].
    intros inside; unfold edge_step.
    rewrite (horizontal_not_crossed p p1 p2 H).
    destruct (on_horizontal_segment p p1 p2), (on_vertical_segment p p1 p2);
      reflexivity.
  - intros p p1 p2 inside.
    destruct (edge_step_total p p1 p2 inside) as [s ->]; discriminate.
  - intros p polygon.
    destruct (isInside_total p polygon) as [b ->]; discriminate.
Qed.

(** C10: for every polygon with at least 3 vertices, isInside of a point with
    the coordinates of vertices[0] returns true: the first iteration compares
    the edge (vertices[0], vertices[0]), whose horizontal-segment test holds
    for that point and returns true. *)
Theorem isInside_first_vertex (p v0 : Point) (rest : list Point) :
  (3 <= length (v0 :: rest))%nat ->
  Point.x p = Point.x v0 -> Point.y p = Point.y v0 ->
  isInside p (mkPolygon (v0 :: rest)) = Some true
  /\ on_horizontal_segment p v0 (nth (0 mod length (v0 :: rest)) (v0 :: rest) v0)
     = true
  /\ forall inside,
      edge_step p v0 (nth (0 mod length (v0 :: rest)) (v0 :: rest) v0) inside
      = Some (Return true).
Proof.
  intros Hlen Hx Hy.
  assert (Hon : lies_on_horizontal p v0 v0).
  { unfold lies_on_horizontal.
    rewrite Rmin_left, Rmax_left by lra; lra. }
  assert (H0 : nth (0 mod length (v0 :: rest)) (v0 :: rest) v0 = v0).
  { rewrite Nat.Div0.mod_0_l; reflexivity. }
  rewrite H0; repeat split.
  - unfold isInside; cbn [vertices].
    destruct (Nat.ltb_spec (length (v0 :: rest)) 3) as [Hlt | _]; [lia |].
    apply (edge_loop_on_boundary p v0 (v0 :: rest)) with (k := O);
      [discriminate | simpl; lia |].
    cbv zeta; unfold vertex_at.
    replace (nth 0 (seq 0 (S (length (v0 :: rest)))) 0%nat) with 0%nat
      by reflexivity.
    rewrite H0; left; exact Hon.
  - apply on_horizontal_segment_iff; exact Hon.
  - intros inside; apply edge_step_on_boundary; left; exact Hon.
Qed.

Lemma isInside_first_vertex_witness :
  isInside (Point.mk 0 0)
    (mkPolygon [Point.mk 0 0; Point.mk 0 4; Point.mk 4 4; Point.mk 4 0])
  = Some true.
Proof.
  apply (isInside_first_vertex (Point.mk 0 0) (Point.mk 0 0)
           [Point.mk 0 4; Point.mk 4 4; Point.mk 4 0]);
    [simpl; lia | reflexivity | reflexivity].
Defined.

(** *** The assertions of testIsInside *)

(** Run [isInside] on a polygon and a point given by numerals. *)
Ltac run_isInside :=
  unfold isInside;
  cbn [vertices length Nat.ltb Nat.leb seq edge_loop Nat.modulo Nat.divmod
       fst snd Nat.sub nth];
  repeat (unfold edge_step, on_horizontal_segment, on_vertical_segment,
            crosses, x_intersection, checked_div;
          cbn [Point.x Point.y andb orb negb];
          decide_doubles;
          cbn [andb orb negb edge_loop nth Nat.modulo Nat.divmod fst snd
               Nat.sub]);
  try reflexivity.

Example testIsInside_square :
  isInside (Point.mk 2 2) TestPlanner.square = Some true
  /\ isInside (Point.mk 1 3) TestPlanner.square = Some true
  /\ isInside (Point.mk 5 2) TestPlanner.square = Some false
  /\ isInside (Point.mk 2 5) TestPlanner.square = Some false
  /\ isInside (Point.mk (-1) 2) TestPlanner.square = Some false
  /\ isInside (Point.mk 2 (-1)) TestPlanner.square = Some false
  /\ isInside (Point.mk 0 2) TestPlanner.square = Some true
  /\ isInside (Point.mk 2 0) TestPlanner.square = Some true
  /\ isInside (Point.mk 4 2) TestPlanner.square = Some true
  /\ isInside (Point.mk 2 4) TestPlanner.square = Some true
  /\ isInside (Point.mk 0 0) TestPlanner.square = Some true
  /\ isInside (Point.mk 4 4) TestPlanner.square = Some true
  /\ isInside (Point.mk 100 100) TestPlanner.square = Some false.
Proof. unfold TestPlanner.square; repeat split; run_isInside. Qed.

Example testIsInside_l_shape :
  isInside (Point.mk (1 / 2) 2) TestPlanner.l_shape = Some true
  /\ isInside (Point.mk 2 (1 / 2)) TestPlanner.l_shape = Some true
  /\ isInside (Point.mk (1 / 2) (1 / 2)) TestPlanner.l_shape = Some true
  /\ isInside (Point.mk (3 / 2) (3 / 2)) TestPlanner.l_shape = Some false
  /\ isInside (Point.mk 1 2) TestPlanner.l_shape = Some true
  /\ isInside (Point.mk 2 1) TestPlanner.l_shape = Some true.
Proof. unfold TestPlanner.l_shape; repeat split; run_isInside. Qed.

End GeometryFacts.

(** ** geometry.h: isInside and the order of its tests *)

Section TraceFacts.
Import Geometry InsideTrace.

Lemma edge_step_traced_erase (p p1 p2 : Point) (inside : bool) :
  option_map fst (edge_step_traced p p1 p2 inside) = edge_step p p1 p2 inside.
Proof.
  unfold edge_step_traced, edge_step.
  destruct (on_horizontal_segment p p1 p2); [reflexivity |].
  destruct (on_vertical_segment p p1 p2); [reflexivity |].
  destruct (crosses p p1 p2); [| reflexivity].
  destruct (x_intersection p p1 p2); reflexivity.
Qed.

Lemma edge_loop_traced_erase (p : Point) (vs : list Point) (n : nat) :
  forall indices p1 inside,
    option_map fst (edge_loop_traced p vs n indices p1 inside)
    = edge_loop p vs n indices p1 inside.
Proof.
  induction indices as [| i rest IH]; intros p1 inside; simpl; [reflexivity |].
  rewrite <- (edge_step_traced_erase p p1 (nth (i mod n) vs p1) inside).
  destruct (edge_step_traced p p1 (nth (i mod n) vs p1) inside)
    as [[[result | inside'] events] |]; simpl; try reflexivity.
  rewrite <- IH.
  destruct (edge_loop_traced p vs n rest (nth (i mod n) vs p1) inside')
    as [[result later] |]; reflexivity.
Qed.

(** Forgetting the events gives [isInside]. *)
Lemma isInside_traced_erase (p : Point) (polygon : Polygon) :
  option_map fst (isInside_traced p polygon) = isInside p polygon.
Proof.
  unfold isInside_traced, isInside.
  destruct (length (vertices polygon) <? 3)%nat; [reflexivity |].
  destruct (vertices polygon); [reflexivity | apply edge_loop_traced_erase].
Qed.

Lemma boundary_return_no_ray_cast (a b : Point) (body : list Event) :
  boundary_return a b body -> existsb is_ray_cast body = false.
Proof. intros [-> | ->]; reflexivity. Qed.

(** The loop body either returns true from a boundary test, having evaluated
    nothing else, or goes on. *)
Lemma edge_step_traced_cases (p a b : Point) (inside : bool) :
  (exists body,
      edge_step_traced p a b inside = Some (Return true, body)
      /\ boundary_return a b body
      /\ (lies_on_horizontal p a b \/ lies_on_vertical p a b))
  \/ (exists inside' body,
         edge_step_traced p a b inside = Some (Continue inside', body)).
Proof.
  unfold edge_step_traced, boundary_return.
  destruct (on_horizontal_segment p a b) eqn:Hh.
  { left; eexists; split; [reflexivity |]; split; [left; reflexivity |].
    left; apply on_horizontal_segment_iff, Hh. }
  destruct (on_vertical_segment p a b) eqn:Hv.
  { left; eexists; split; [reflexivity |]; split; [right; reflexivity |].
    right; apply on_vertical_segment_iff, Hv. }
  right; destruct (crosses p a b) eqn:Hc; [| eauto].
  rewrite (crosses_x_intersection _ _ _ Hc); eauto.
Qed.

Lemma edge_step_traced_on_boundary (p a b : Point) (inside : bool) :
  lies_on_horizontal p a b \/ lies_on_vertical p a b ->
  exists body,
    edge_step_traced p a b inside = Some (Return true, body)
    /\ boundary_return a b body.
Proof.
  rewrite <- on_horizontal_segment_iff, <- on_vertical_segment_iff.
  unfold edge_step_traced, boundary_return; intros H.
  destruct (on_horizontal_segment p a b); [eauto |].
  destruct H as [H | ->]; [discriminate | eauto].
Qed.

(** If the edge compared at some iteration has [p] on it, the loop returns
    true straight from a boundary test: its events end with those of an
    iteration that evaluated boundary tests only. *)
Lemma edge_loop_traced_on_boundary (p d : Point) (vs : list Point) :
  vs <> [] ->
  forall indices p1 inside k,
    (k < length indices)%nat ->
    (let prev := match k with
                 | O => p1
                 | S k' => nth (nth k' indices O mod length vs) vs d
                 end in
     let cur := nth (nth k indices O mod length vs) vs d in
     lies_on_horizontal p prev cur \/ lies_on_vertical p prev cur) ->
    exists earlier a b body,
      edge_loop_traced p vs (length vs) indices p1 inside
      = Some (true, earlier ++ body)
      /\ boundary_return a b body
      /\ (lies_on_horizontal p a b \/ lies_on_vertical p a b).
Proof.
  intros Hvs.
  assert (Hn : length vs <> O) by (destruct vs; simpl; congruence).
  assert (Hnth : forall i a b,
             nth (i mod length vs) vs a = nth (i mod length vs) vs b).
  { intros i a b; apply nth_indep, Nat.mod_upper_bound, Hn. }
  induction indices as [| i rest IH]; intros p1 inside k Hk Hon; simpl in Hk.
  - lia.
  - simpl edge_loop_traced.
    destruct (edge_step_traced_cases p p1 (nth (i mod length vs) vs p1) inside)
      as [(body & E & Hbody & Hlies) | (inside' & body & E)]; rewrite E.
    + exists [], p1, (nth (i mod length vs) vs p1), body; auto.
    + destruct k as [| k'].
      * simpl in Hon; rewrite <- (Hnth i p1 d) in Hon.
        destruct (edge_step_traced_on_boundary p _ _ inside Hon) as (b' & E' & _).
        congruence.
      * destruct (IH (nth (i mod length vs) vs p1) inside' k') as
          (earlier & a & b & final & E' & Hfinal & Hlies); [lia | |].
        { simpl in Hon.
          destruct k' as [| k'']; simpl in *; [rewrite (Hnth i p1 d) |]; exact Hon. }
        rewrite E'; exists (body ++ earlier), a, b, final.
        rewrite app_assoc; auto.
Qed.

(** C5, as the code has it: for every polygon (of at least 3 vertices; fewer
    are the degenerate case of C6) and every point p, if p lies on a
    horizontal edge (both endpoints share p's y and p's x is within their
    x-range) or on a vertical edge (both endpoints share p's x and p's y is
    within their y-range), isInside returns true.  The loop body for such an
    edge returns true from its boundary tests, having evaluated no crossing
    test and no intersection; the call returns from the first iteration
    whose boundary test matches, and its events end with the boundary tests
    of that iteration. *)
Theorem isInside_on_axis_aligned_edge (p p1 p2 : Point) (polygon : Polygon) :
  (3 <= length (vertices polygon))%nat ->
  is_edge polygon p1 p2 ->
  lies_on_horizontal p p1 p2 \/ lies_on_vertical p p1 p2 ->
  isInside p polygon = Some true
  /\ (forall inside, exists body,
        edge_step_traced p p1 p2 inside = Some (Return true, body)
        /\ boundary_return p1 p2 body
        /\ existsb is_ray_cast body = false)
  /\ exists earlier a b body,
       isInside_traced p polygon = Some (true, earlier ++ body)
       /\ boundary_return a b body
       /\ existsb is_ray_cast body = false
       /\ (lies_on_horizontal p a b \/ lies_on_vertical p a b).
Proof.
  intros Hlen (i & Hi & H1 & H2) Hon.
  assert (Htrace : exists earlier a b body,
             isInside_traced p polygon = Some (true, earlier ++ body)
             /\ boundary_return a b body
             /\ (lies_on_horizontal p a b \/ lies_on_vertical p a b)).
  { unfold isInside_traced.
    destruct (Nat.ltb_spec (length (vertices polygon)) 3) as [Hlt | _]; [lia |].
    destruct (vertices polygon) as [| v0 rest] eqn:Evs; [simpl in Hlen; lia |].
    set (vs := v0 :: rest) in *.
    apply (edge_loop_traced_on_boundary p v0 vs) with (k := S i);
      [subst vs; discriminate | rewrite length_seq; lia |].
    cbv zeta.
    rewrite !seq_nth by lia; simpl (0 + _)%nat.
    rewrite (Nat.mod_small i) by exact Hi.
    replace (S i) with (i + 1)%nat by lia.
    rewrite (nth_error_nth _ _ _ H1), (nth_error_nth _ _ _ H2); exact Hon. }
  split; [| split].
  - destruct Htrace as (earlier & a & b & body & E & _).
    rewrite <- isInside_traced_erase, E; reflexivity.
  - intros inside.
    destruct (edge_step_traced_on_boundary p p1 p2 inside Hon) as (body & E & Hb).
    exists body; repeat split; try assumption.
    apply boundary_return_no_ray_cast with p1 p2; exact Hb.
  - destruct Htrace as (earlier & a & b & body & E & Hb & Hlies).
    exists earlier, a, b, body; repeat split; try assumption.
    apply boundary_return_no_ray_cast with a b; exact Hb.
Qed.

(** C5 on the square of the test and the point (4, 2) of its right edge. *)
Lemma isInside_on_axis_aligned_edge_witness :
  isInside (Point.mk 4 2)
    (mkPolygon [Point.mk 0 0; Point.mk 0 4; Point.mk 4 4; Point.mk 4 0])
  = Some true.
Proof.
  apply (isInside_on_axis_aligned_edge (Point.mk 4 2) (Point.mk 4 4) (Point.mk 4 0)).
  - simpl; lia.
  - exists 2%nat; simpl; repeat split; lia.
  - right; unfold lies_on_vertical; simpl.
    rewrite Rmin_right, Rmax_left by lra; lra.
Defined.

(** C5 as stated fails in its last clause: the boundary test that matches
    does not come before the ray-cast logic of the call.  For the square of
    the test and the point (4, 2) on its right edge, the call evaluates the
    crossing test of three edges, and for the left edge the intersection
    formula, before the vertical test of the right edge matches. *)
Lemma isInside_ray_cast_before_boundary_match :
  is_edge (mkPolygon [Point.mk 0 0; Point.mk 0 4; Point.mk 4 4; Point.mk 4 0])
          (Point.mk 4 4) (Point.mk 4 0)
  /\ lies_on_vertical (Point.mk 4 2) (Point.mk 4 4) (Point.mk 4 0)
  /\ isInside_traced (Point.mk 4 2)
       (mkPolygon [Point.mk 0 0; Point.mk 0 4; Point.mk 4 4; Point.mk 4 0])
     = Some (true,
             [HorizontalTest (Point.mk 0 0) (Point.mk 0 0) false;
              VerticalTest (Point.mk 0 0) (Point.mk 0 0) false;
              CrossingTest (Point.mk 0 0) (Point.mk 0 0) false;
              HorizontalTest (Point.mk 0 0) (Point.mk 0 4) false;
              VerticalTest (Point.mk 0 0) (Point.mk 0 4) false;
              CrossingTest (Point.mk 0 0) (Point.mk 0 4) true;
              Intersection (Point.mk 0 0) (Point.mk 0 4) false;
              HorizontalTest (Point.mk 0 4) (Point.mk 4 4) false;
              VerticalTest (Point.mk 0 4) (Point.mk 4 4) false;
              CrossingTest (Point.mk 0 4) (Point.mk 4 4) false;
              HorizontalTest (Point.mk 4 4) (Point.mk 4 0) false;
              VerticalTest (Point.mk 4 4) (Point.mk 4 0) true]).
Proof.
  split; [exists 2%nat; simpl; repeat split; lia |].
  split.
  - unfold lies_on_vertical; simpl.
    rewrite Rmin_right, Rmax_left by lra; lra.
  - unfold isInside_traced;
      cbn [vertices length Nat.ltb Nat.leb seq edge_loop_traced Nat.modulo
           Nat.divmod fst snd Nat.sub nth];
      repeat (unfold edge_step_traced, on_horizontal_segment,
                on_vertical_segment, crosses, x_intersection, checked_div;
              cbn [Point.x Point.y andb orb negb];
              decide_doubles;
              cbn [andb orb negb edge_loop_traced nth Nat.modulo Nat.divmod
                   fst snd Nat.sub app]);
      reflexivity.
Qed.

End TraceFacts.

(** ** geometry.h: distance *)

Section Binary64Facts.
Import PrimFloat SpecFloat FloatOps FloatAxioms.
Import Binary64 SpecFacts.

(** *** Rounding keeps the sign and never makes a NaN *)

Lemma shr_1_nonneg mrs : (0 <= shr_m mrs)%Z -> (0 <= shr_m (shr_1 mrs))%Z.
Proof.
  destruct mrs as [m r s]; simpl; intros H.
  destruct m as [| p | p]; [simpl; lia | | lia].
  destruct p; simpl; lia.
Qed.

Lemma iter_pos_invariant (A : Type) (P : A -> Prop) (f : A -> A) :
  (forall a, P a -> P (f a)) -> forall n a, P a -> P (iter_pos f n a).
Proof.
  intros Hf; induction n as [n IH | n IH |]; intros a Ha; simpl; auto.
Qed.

Lemma shr_nonneg mrs e n :
  (0 <= shr_m mrs)%Z -> (0 <= shr_m (fst (shr mrs e n)))%Z.
Proof.
  intros H; unfold shr; destruct n; simpl; try exact H.
  apply (iter_pos_invariant _ (fun m => (0 <= shr_m m)%Z)); [apply shr_1_nonneg | exact H].
Qed.

Lemma shr_record_of_loc_m m l : shr_m (shr_record_of_loc m l) = m.
Proof. destruct l as [| []]; reflexivity. Qed.

Lemma shr_fexp_nonneg prec emax m e l :
  (0 <= m)%Z -> (0 <= shr_m (fst (shr_fexp prec emax m e l)))%Z.
Proof.
  intros H; unfold shr_fexp; apply shr_nonneg.
  rewrite shr_record_of_loc_m; exact H.
Qed.

Lemma round_nearest_even_nonneg m l :
  (0 <= m)%Z -> (0 <= round_nearest_even m l)%Z.
Proof.
  intros H; unfold round_nearest_even.
  destruct l as [| []]; try lia.
  destruct (Z.even m); lia.
Qed.

Lemma binary_round_aux_signed prec emax s m e l :
  (0 <= m)%Z -> signed s (binary_round_aux prec emax s m e l).
Proof.
  intros H; unfold binary_round_aux.
  pose proof (shr_fexp_nonneg prec emax m e l H) as H1.
  destruct (shr_fexp prec emax m e l) as [mrs' e']; simpl in H1.
  pose proof (shr_fexp_nonneg prec emax _ e' loc_Exact
                (round_nearest_even_nonneg _ (loc_of_shr_record mrs') H1)) as H2.
  destruct (shr_fexp prec emax
              (round_nearest_even (shr_m mrs') (loc_of_shr_record mrs')) e' loc_Exact)
    as [mrs'' e'']; simpl in H2.
  destruct (shr_m mrs''); [reflexivity | | lia].
  destruct (Z.leb e'' (emax - prec)); reflexivity.
Qed.

Lemma binary_round_signed prec emax s m e :
  signed s (binary_round prec emax s m e).
Proof.
  unfold binary_round.
  destruct (shl_align m e _) as [mz ez].
  apply binary_round_aux_signed; lia.
Qed.







(** *** Finite operands give numbers *)

Lemma finite_is_number (a : float) : finite a = true -> is_number (Prim2SF a).
Proof. unfold finite, is_number; destruct (Prim2SF a); auto; discriminate. Qed.

Lemma signed_not_nan s f : signed s f -> not_nan f.
Proof. destruct f; simpl; auto. Qed.

Lemma binary_normalize_not_nan prec emax m e s :
  not_nan (binary_normalize prec emax m e s).
Proof.
  destruct m; simpl; [exact I | |];
    eapply signed_not_nan, binary_round_signed.
Qed.

Lemma SFsub_number a b :
  is_number a -> is_number b -> not_nan (SF64sub a b).
Proof.
  unfold SF64sub, SFsub.
  destruct a as [sa | sa | | sa ma ea], b as [sb | sb | | sb mb eb];
    simpl; try tauto; intros _ _.
  - destruct sa, sb; exact I.
  - apply binary_normalize_not_nan.
Qed.







(** *** Equal coordinates *)

Lemma SFsub_eq a b :
  is_number a -> is_number b -> SFeqb a b = true ->
  exists s, SF64sub b a = S754_zero s.
Proof.
  unfold SFeqb, SF64sub, SFsub.
  destruct a as [sa | sa | | sa ma ea], b as [sb | sb | | sb mb eb];
    simpl; try tauto; intros _ _ H.
  - destruct sb, sa; eauto.
  - destruct sa, sb; discriminate.
  - destruct sa, sb; discriminate.
  - assert (Hs : sa = sb /\ ea = eb /\ ma = mb).
    { destruct sa, sb; try discriminate;
        destruct (Z.compare ea eb) eqn:He; try discriminate;
        apply Z.compare_eq in He;
        destruct (Pos.compare_cont Eq ma mb) eqn:Hm; try discriminate;
        apply Pos.compare_eq in Hm; auto. }
    destruct Hs as (-> & -> & ->).
    rewrite Z.sub_diag; simpl; eauto.
Qed.






(** The assertions of testDistance, which hold without any tolerance. *)
Example testDistance :
  distance (Point.mk 0 0) (Point.mk 3 4) = 5%float
  /\ distance (Point.mk 0 0) (Point.mk 0 0) = 0%float
  /\ distance (Point.mk 3 4) (Point.mk 0 0) = 5%float
  /\ distance (Point.mk 0 0) (Point.mk (-1) 0) = 1%float
  /\ distance (Point.mk 0 0) (Point.mk 0 (-1)) = 1%float
  /\ distance (Point.mk 1 1) (Point.mk 1 5) = 4%float
  /\ distance (Point.mk 1 1) (Point.mk 5 1) = 4%float.
Proof. repeat split; vm_compute; reflexivity. Qed.

End Binary64Facts.

(** ** sweep_planner.h *)

Section PlannerFacts.
Import Geometry Planner.

(** *** The bounding extent *)

Lemma fold_Rmin_lower (coord : Point -> R) (vs : list Point) :
  forall m,
    fold_left (fun m v => Rmin m (coord v)) vs m <= m
    /\ forall v, In v vs -> fold_left (fun m v => Rmin m (coord v)) vs m <= coord v.
Proof.
  induction vs as [| a vs IH]; intros m; simpl.
  - split; [lra | tauto].
  - destruct (IH (Rmin m (coord a))) as [H1 H2].
    pose proof (Rmin_l m (coord a)); pose proof (Rmin_r m (coord a)).
    split; [lra |].
    intros v [<- | Hv]; [lra | auto].
Qed.

Lemma fold_Rmax_upper (coord : Point -> R) (vs : list Point) :
  forall m,
    m <= fold_left (fun m v => Rmax m (coord v)) vs m
    /\ forall v, In v vs -> coord v <= fold_left (fun m v => Rmax m (coord v)) vs m.
Proof.
  induction vs as [| a vs IH]; intros m; simpl.
  - split; [lra | tauto].
  - destruct (IH (Rmax m (coord a))) as [H1 H2].
    pose proof (Rmax_l m (coord a)); pose proof (Rmax_r m (coord a)).
    split; [lra |].
    intros v [<- | Hv]; [lra | auto].
Qed.

Lemma fold_Rmin_attained (coord : Point -> R) (vs : list Point) :
  forall m,
    fold_left (fun m v => Rmin m (coord v)) vs m = m
    \/ exists v, In v vs /\ fold_left (fun m v => Rmin m (coord v)) vs m = coord v.
Proof.
  induction vs as [| a vs IH]; intros m; simpl; [left; reflexivity |].
  destruct (IH (Rmin m (coord a))) as [H | (v & Hv & H)].
  - rewrite H; unfold Rmin; destruct (Rle_dec m (coord a)); eauto.
  - right; eauto.
Qed.

Lemma fold_Rmax_attained (coord : Point -> R) (vs : list Point) :
  forall m,
    fold_left (fun m v => Rmax m (coord v)) vs m = m
    \/ exists v, In v vs /\ fold_left (fun m v => Rmax m (coord v)) vs m = coord v.
Proof.
  induction vs as [| a vs IH]; intros m; simpl; [left; reflexivity |].
  destruct (IH (Rmax m (coord a))) as [H | (v & Hv & H)].
  - rewrite H; unfold Rmax; destruct (Rle_dec m (coord a)); eauto.
  - right; eauto.
Qed.

(** [min_coord] is the least coordinate of the vertices. *)
Lemma min_coord_is_least (coord : Point -> R) (vs : list Point) (a : R) :
  (forall v, In v vs -> a <= coord v) ->
  (exists v, In v vs /\ coord v = a) ->
  min_coord coord vs = a.
Proof.
  intros Hlow (w & Hw & Ha).
  destruct vs as [| v0 rest]; [contradiction |]; unfold min_coord.
  destruct (fold_Rmin_lower coord rest (coord v0)) as [H0 Hrest].
  assert (Hle : fold_left (fun m v => Rmin m (coord v)) rest (coord v0) <= a).
  { destruct Hw as [<- | Hw]; [lra | rewrite <- Ha; auto]. }
  destruct (fold_Rmin_attained coord rest (coord v0)) as [H | (v & Hv & H)].
  - pose proof (Hlow v0 (or_introl eq_refl)); lra.
  - pose proof (Hlow v (or_intror Hv)); lra.
Qed.

(** [max_coord] is the greatest coordinate of the vertices. *)
Lemma max_coord_is_greatest (coord : Point -> R) (vs : list Point) (a : R) :
  (forall v, In v vs -> coord v <= a) ->
  (exists v, In v vs /\ coord v = a) ->
  max_coord coord vs = a.
Proof.
  intros Hup (w & Hw & Ha).
  destruct vs as [| v0 rest]; [contradiction |]; unfold max_coord.
  destruct (fold_Rmax_upper coord rest (coord v0)) as [H0 Hrest].
  assert (Hle : a <= fold_left (fun m v => Rmax m (coord v)) rest (coord v0)).
  { destruct Hw as [<- | Hw]; [lra | rewrite <- Ha; auto]. }
  destruct (fold_Rmax_attained coord rest (coord v0)) as [H | (v & Hv & H)].
  - pose proof (Hup v0 (or_introl eq_refl)); lra.
  - pose proof (Hup v (or_intror Hv)); lra.
Qed.

Lemma min_le_max_coord (coord : Point -> R) (vs : list Point) :
  min_coord coord vs <= max_coord coord vs.
Proof.
  destruct vs as [| v0 rest]; simpl; [lra |].
  pose proof (proj1 (fold_Rmin_lower coord rest (coord v0))).
  pose proof (proj1 (fold_Rmax_upper coord rest (coord v0))).
  lra.
Qed.

(** The extent of a rectangle is the rectangle. *)
Lemma rectangle_extent (area : Polygon) (min_x min_y max_x max_y : R) :
  axis_aligned_rectangle area min_x min_y max_x max_y ->
  min_coord Point.x (vertices area) = min_x
  /\ max_coord Point.x (vertices area) = max_x
  /\ min_coord Point.y (vertices area) = min_y
  /\ max_coord Point.y (vertices area) = max_y.
Proof.
  intros (Hx & Hy & _ & Hin & Hall).
  assert (Hbox : forall v, In v (vertices area) ->
                   min_x <= Point.x v <= max_x /\ min_y <= Point.y v <= max_y).
  { intros v Hv; apply Hall in Hv; simpl in Hv.
    destruct Hv as [<- | [<- | [<- | [<- | []]]]]; simpl; lra. }
  repeat split.
  - apply min_coord_is_least; [intros v Hv; apply Hbox, Hv |].
    exists (Point.mk min_x min_y); split; [apply Hin; simpl; auto | reflexivity].
  - apply max_coord_is_greatest; [intros v Hv; apply Hbox, Hv |].
    exists (Point.mk max_x max_y); split; [apply Hin; simpl; auto | reflexivity].
  - apply min_coord_is_least; [intros v Hv; apply Hbox, Hv |].
    exists (Point.mk min_x min_y); split; [apply Hin; simpl; auto | reflexivity].
  - apply max_coord_is_greatest; [intros v Hv; apply Hbox, Hv |].
    exists (Point.mk max_x max_y); split; [apply Hin; simpl; auto | reflexivity].
Qed.

(** *** The loop of step 3 *)

Lemma sweep_length (min_x max_x sweep_y : R) (left_to_right : bool) :
  length (sweep min_x max_x sweep_y left_to_right) = 2%nat.
Proof. destruct left_to_right; reflexivity. Qed.

Lemma boustrophedon_length (min_x max_x min_y width : R) (count : nat) :
  length (boustrophedon min_x max_x min_y width count) = (2 * count)%nat.
Proof.
  unfold boustrophedon; generalize 0%nat at 1.
  induction count as [| c IH]; intros start; simpl; [reflexivity |].
  rewrite length_app, sweep_length, IH; lia.
Qed.

Lemma flat_map_seq_shift (A : Type) (f : nat -> list A) (start len : nat) :
  flat_map f (seq (S start) len) = flat_map (fun k => f (S k)) (seq start len).
Proof.
  revert start; induction len as [| len IH]; intros start; simpl;
    [reflexivity | rewrite IH; reflexivity].
Qed.

(** With enough fuel to pass [limit], the loop emits exactly the sweeps at
    [current_y + k * width] that are not above [limit], alternating from
    [left_to_right]. *)
Lemma sweep_lines_enough_fuel (min_x max_x limit width : R) :
  0 < width ->
  forall fuel current_y left_to_right,
    limit < current_y + INR fuel * width ->
    exists count : nat,
      (count <= fuel)%nat
      /\ (forall k, (k < count)%nat <-> current_y + INR k * width <= limit)
      /\ sweep_lines fuel min_x max_x limit width current_y left_to_right
         = flat_map
             (fun k => sweep min_x max_x (current_y + INR k * width)
                         (if Nat.even k then left_to_right
                          else negb left_to_right))
             (seq 0 count).
Proof.
  intros Hw.
  assert (Hstop : forall y, limit < y ->
            forall k, (k < 0)%nat <-> y + INR k * width <= limit).
  { intros y Hy k; split; [lia |].
    pose proof (pos_INR k); nra. }
  induction fuel as [| fuel IH]; intros y ltr Hfuel.
  - exists 0%nat; simpl in *; repeat split; try lia;
      apply Hstop; lra.
  - simpl sweep_lines. destruct (leb_spec y limit) as [Hle | Hgt].
    + destruct (IH (y + width) (negb ltr)) as (count & Hc & Hk & Heq).
      { rewrite S_INR in Hfuel; lra. }
      exists (S count); split; [lia |]; split.
      * intros [| k].
        -- simpl; split; [lra | lia].
        -- rewrite S_INR.
           replace (y + (INR k + 1) * width) with (y + width + INR k * width)
             by ring.
           rewrite <- Hk; lia.
      * rewrite Heq; simpl flat_map.
        f_equal; [f_equal; ring |].
        rewrite flat_map_seq_shift.
        apply flat_map_ext; intros k.
        rewrite S_INR, Nat.even_succ, <- Nat.negb_even.
        replace (y + (INR k + 1) * width) with (y + width + INR k * width)
          by ring.
        destruct (Nat.even k), ltr; reflexivity.
    + exists 0%nat; repeat split; try lia; apply Hstop; lra.
Qed.

(** Once the fuel passes [limit], more fuel changes nothing: the loop has
    left through its condition. *)
Lemma sweep_lines_more_fuel (min_x max_x limit width : R) :
  0 < width ->
  forall fuel current_y left_to_right extra,
    limit < current_y + INR fuel * width ->
    sweep_lines (fuel + extra) min_x max_x limit width current_y left_to_right
    = sweep_lines fuel min_x max_x limit width current_y left_to_right.
Proof.
  intros Hw; induction fuel as [| fuel IH]; intros y ltr extra Hfuel.
  - simpl in Hfuel; destruct extra as [| extra]; simpl; [reflexivity |].
    destruct (leb_spec y limit); [lra | reflexivity].
  - simpl; destruct (leb_spec y limit); [| reflexivity].
    rewrite IH; [reflexivity | rewrite S_INR in Hfuel; lra].
Qed.

(** The fuel granted by [sweep_path] passes the limit. *)
Lemma sweep_fuel_enough (min_y max_y width : R) :
  0 < width -> min_y < max_y ->
  max_y - width / 2
  < min_y + width / 2 + INR (sweep_fuel min_y max_y width) * width.
Proof.
  intros Hw Hh; unfold sweep_fuel.
  set (q := (max_y - min_y) / width).
  assert (Hq : 0 < q) by (apply Rdiv_lt_0_compat; lra).
  destruct (archimed q) as [Hup _].
  assert (Hz : (0 <= up q)%Z).
  { apply le_IZR; simpl; lra. }
  rewrite INR_IZR_INZ, Z2Nat.id by exact Hz.
  assert (Hmul : q * width < IZR (up q) * width)
    by (apply Rmult_lt_compat_r; lra).
  replace (q * width) with (max_y - min_y) in Hmul
    by (unfold q; field; lra).
  lra.
Qed.

(** The path of a region that is at least as high as the tool is wide. *)
Lemma sweep_path_sweeps (area : Polygon) (width : R) :
  (3 <= length (vertices area))%nat ->
  0 < width ->
  width <= max_coord Point.y (vertices area) - min_coord Point.y (vertices area) ->
  exists count : nat,
    (forall k, (k < count)%nat <->
               sweep_y (min_coord Point.y (vertices area)) width k
               <= max_coord Point.y (vertices area) - width / 2)
    /\ sweep_path area width
       = boustrophedon (min_coord Point.x (vertices area))
           (max_coord Point.x (vertices area))
           (min_coord Point.y (vertices area)) width count.
Proof.
  intros Hlen Hw Hh; unfold sweep_path.
  destruct (Nat.ltb_spec (length (vertices area)) 3) as [Hlt | _]; [lia |].
  set (min_y := min_coord Point.y (vertices area)) in *.
  set (max_y := max_coord Point.y (vertices area)) in *.
  destruct (leb_spec max_y min_y) as [Hflat | _]; [lra |].
  destruct (leb_spec (min_y + width / 2) (max_y - width / 2)) as [_ | Hno];
    [| lra].
  destruct (sweep_lines_enough_fuel
              (min_coord Point.x (vertices area))
              (max_coord Point.x (vertices area))
              (max_y - width / 2) width Hw
              (sweep_fuel min_y max_y width) (min_y + width / 2) true)
    as (count & _ & Hk & Heq).
  { apply sweep_fuel_enough; lra. }
  exists count; split; [exact Hk |].
  rewrite Heq; unfold boustrophedon, sweep_y.
  apply flat_map_ext; intros k; destruct (Nat.even k); reflexivity.
Qed.

(** The path of a region lower than the tool is wide. *)
Lemma sweep_path_midpoint (area : Polygon) (width : R) :
  (3 <= length (vertices area))%nat ->
  min_coord Point.y (vertices area) < max_coord Point.y (vertices area) ->
  max_coord Point.y (vertices area) - min_coord Point.y (vertices area) < width ->
  sweep_path area width
  = [Point.mk (min_coord Point.x (vertices area))
       ((min_coord Point.y (vertices area) + max_coord Point.y (vertices area)) / 2);
     Point.mk (max_coord Point.x (vertices area))
       ((min_coord Point.y (vertices area) + max_coord Point.y (vertices area)) / 2)].
Proof.
  intros Hlen Hpos Hlow; unfold sweep_path.
  destruct (Nat.ltb_spec (length (vertices area)) 3) as [Hlt | _]; [lia |].
  destruct (leb_spec (max_coord Point.y (vertices area))
              (min_coord Point.y (vertices area))) as [Hflat | _]; [lra |].
  destruct (leb_spec (min_coord Point.y (vertices area) + width / 2)
              (max_coord Point.y (vertices area) - width / 2)) as [Hfit | _];
    [lra | reflexivity].
Qed.

(** The path of a region with fewer than 3 vertices or without height. *)
Lemma sweep_path_degenerate (area : Polygon) (width : R) :
  (length (vertices area) < 3)%nat
  \/ max_coord Point.y (vertices area) <= min_coord Point.y (vertices area) ->
  sweep_path area width = [].
Proof.
  intros H; unfold sweep_path.
  destruct (Nat.ltb_spec (length (vertices area)) 3) as [_ | Hge];
    [reflexivity |].
  destruct H as [H | H]; [lia |].
  destruct (leb_spec (max_coord Point.y (vertices area))
              (min_coord Point.y (vertices area))); [reflexivity | lra].
Qed.

Lemma construct_positive (area : Polygon) (width : R)
    (planner : SweepPathPlanner) :
  construct area width = inr planner ->
  0 < width /\ area_to_mow_ planner = area /\ cutting_width_ planner = width.
Proof.
  unfold construct; destruct (leb_spec width 0); [discriminate |].
  intros [= <-]; simpl; repeat split; lra.
Qed.

(** *** generatePath: main results *)

(** The rectangle from (0, 0) to ([max_x], [max_y]) as the tests build it. *)
Lemma test_rectangle_is_rectangle (max_x max_y : R) :
  0 <= max_x -> 0 <= max_y ->
  axis_aligned_rectangle
    (mkPolygon [Point.mk 0 0; Point.mk 0 max_y;
                Point.mk max_x max_y; Point.mk max_x 0])
    0 0 max_x max_y.
Proof.
  intros Hx Hy; unfold axis_aligned_rectangle, corners; simpl.
  repeat split; try assumption; intros c Hc; exact Hc.
Qed.

(** C1: for every axis-aligned rectangle of 4 vertices whose height
    max_y - min_y is at least the width, and the width positive,
    generatePath returns two waypoints per sweep line: some number [count] of
    sweeps, where k < count exactly when min_y + width/2 + k * width is at
    most max_y - width/2, sweep k at that height, (min_x, y) then (max_x, y)
    for even k and (max_x, y) then (min_x, y) for odd k. *)
Theorem generatePath_rectangle (area : Polygon) (width : R)
    (min_x min_y max_x max_y : R) (planner : SweepPathPlanner) :
  axis_aligned_rectangle area min_x min_y max_x max_y ->
  0 < width ->
  width <= max_y - min_y ->
  construct area width = inr planner ->
  exists count : nat,
    (forall k, (k < count)%nat <-> sweep_y min_y width k <= max_y - width / 2)
    /\ snd (generatePath planner)
       = flat_map
           (fun k =>
              if Nat.even k
              then [Point.mk min_x (sweep_y min_y width k);
                    Point.mk max_x (sweep_y min_y width k)]
              else [Point.mk max_x (sweep_y min_y width k);
                    Point.mk min_x (sweep_y min_y width k)])
           (seq 0 count)
    /\ length (snd (generatePath planner)) = (2 * count)%nat.
Proof.
  intros Hrect Hw Hh Hnew.
  destruct (construct_positive _ _ _ Hnew) as (_ & Harea & Hwidth).
  destruct (rectangle_extent _ _ _ _ _ Hrect) as (Hx0 & Hx1 & Hy0 & Hy1).
  assert (Hlen : (3 <= length (vertices area))%nat).
  { destruct Hrect as (_ & _ & -> & _); lia. }
  destruct (sweep_path_sweeps area width Hlen Hw) as (count & Hk & Hpath).
  { rewrite Hy0, Hy1; exact Hh. }
  rewrite Hx0, Hx1, Hy0 in Hpath; rewrite Hy0, Hy1 in Hk.
  exists count; unfold generatePath; cbn [snd]; rewrite Harea, Hwidth, Hpath.
  split; [exact Hk |]; split; [| apply boustrophedon_length].
  unfold boustrophedon; apply flat_map_ext; intros k.
  destruct (Nat.even k); reflexivity.
Qed.

(** C1 on the two rectangles of the test: (0,0)-(5,10) with width 2 gives
    the 10 waypoints of 5 sweeps at y = 1, 3, 5, 7, 9, and (0,0)-(5,9) with
    width 2 the 8 waypoints of 4 sweeps at y = 1, 3, 5, 7. *)
Lemma generatePath_rectangle_witness :
  plan (mkPolygon [Point.mk 0 0; Point.mk 0 10; Point.mk 5 10; Point.mk 5 0]) 2
  = inr [Point.mk 0 1; Point.mk 5 1; Point.mk 5 3; Point.mk 0 3;
         Point.mk 0 5; Point.mk 5 5; Point.mk 5 7; Point.mk 0 7;
         Point.mk 0 9; Point.mk 5 9]
  /\ plan (mkPolygon [Point.mk 0 0; Point.mk 0 9; Point.mk 5 9; Point.mk 5 0]) 2
     = inr [Point.mk 0 1; Point.mk 5 1; Point.mk 5 3; Point.mk 0 3;
            Point.mk 0 5; Point.mk 5 5; Point.mk 5 7; Point.mk 0 7].
Proof.
  split.
  - unfold plan, construct.
    destruct (leb_spec 2 0) as [Hbad | _]; [lra |].
    destruct (generatePath_rectangle
                (mkPolygon [Point.mk 0 0; Point.mk 0 10;
                            Point.mk 5 10; Point.mk 5 0])
                2 0 0 5 10
                {| area_to_mow_ :=
                     mkPolygon [Point.mk 0 0; Point.mk 0 10;
                                Point.mk 5 10; Point.mk 5 0];
                   cutting_width_ := 2;
                   waypoints_ := [] |})
      as (count & Hk & Hpath & _).
    + apply test_rectangle_is_rectangle; lra.
    + lra.
    + lra.
    + unfold construct; destruct (leb_spec 2 0); [lra | reflexivity].
    + assert (Hcount : count = 5%nat).
      { assert (H4 : (4 < count)%nat)
          by (apply Hk; unfold sweep_y; simpl; lra).
        assert (H5 : ~ (5 < count)%nat)
          by (intros H; apply Hk in H; unfold sweep_y in H; simpl in H; lra).
        lia. }
      rewrite Hpath, Hcount; unfold sweep_y; simpl.
      repeat (f_equal; try lra).
  - unfold plan, construct.
    destruct (leb_spec 2 0) as [Hbad | _]; [lra |].
    destruct (generatePath_rectangle
                (mkPolygon [Point.mk 0 0; Point.mk 0 9;
                            Point.mk 5 9; Point.mk 5 0])
                2 0 0 5 9
                {| area_to_mow_ :=
                     mkPolygon [Point.mk 0 0; Point.mk 0 9;
                                Point.mk 5 9; Point.mk 5 0];
                   cutting_width_ := 2;
                   waypoints_ := [] |})
      as (count & Hk & Hpath & _).
    + apply test_rectangle_is_rectangle; lra.
    + lra.
    + lra.
    + unfold construct; destruct (leb_spec 2 0); [lra | reflexivity].
    + assert (Hcount : count = 4%nat).
      { assert (H3 : (3 < count)%nat)
          by (apply Hk; unfold sweep_y; simpl; lra).
        assert (H4 : ~ (4 < count)%nat)
          by (intros H; apply Hk in H; unfold sweep_y in H; simpl in H; lra).
        lia. }
      rewrite Hpath, Hcount; unfold sweep_y; simpl.
      repeat (f_equal; try lra).
Defined.

(** C2: for every axis-aligned rectangle whose height is positive and less
    than the width, generatePath returns the two waypoints of one
    left-to-right sweep at the vertical midpoint. *)
Theorem generatePath_undersized (area : Polygon) (width : R)
    (min_x min_y max_x max_y : R) (planner : SweepPathPlanner) :
  axis_aligned_rectangle area min_x min_y max_x max_y ->
  0 < max_y - min_y ->
  max_y - min_y < width ->
  construct area width = inr planner ->
  snd (generatePath planner)
  = [Point.mk min_x ((min_y + max_y) / 2); Point.mk max_x ((min_y + max_y) / 2)].
Proof.
  intros Hrect Hpos Hlow Hnew.
  destruct (construct_positive _ _ _ Hnew) as (_ & Harea & Hwidth).
  destruct (rectangle_extent _ _ _ _ _ Hrect) as (Hx0 & Hx1 & Hy0 & Hy1).
  assert (Hlen : (3 <= length (vertices area))%nat).
  { destruct Hrect as (_ & _ & -> & _); lia. }
  unfold generatePath; cbn [snd]; rewrite Harea, Hwidth.
  rewrite sweep_path_midpoint; rewrite ?Hx0, ?Hx1, ?Hy0, ?Hy1;
    [reflexivity | exact Hlen | lra | lra].
Qed.

(** C2 on the third rectangle of the test: (0,0)-(5,1) with width 2 gives
    (0, 0.5) then (5, 0.5). *)
Lemma generatePath_undersized_witness :
  plan (mkPolygon [Point.mk 0 0; Point.mk 0 1; Point.mk 5 1; Point.mk 5 0]) 2
  = inr [Point.mk 0 (1 / 2); Point.mk 5 (1 / 2)].
Proof.
  unfold plan, construct.
  destruct (leb_spec 2 0) as [Hbad | _]; [lra |].
  rewrite (generatePath_undersized
             (mkPolygon [Point.mk 0 0; Point.mk 0 1; Point.mk 5 1; Point.mk 5 0])
             2 0 0 5 1).
  - repeat (f_equal; try lra).
  - apply test_rectangle_is_rectangle; lra.
  - lra.
  - lra.
  - unfold construct; destruct (leb_spec 2 0); [lra | reflexivity].
Defined.

(** C3: for every polygon with fewer than 3 vertices, or whose y-extent has
    max_y <= min_y, generatePath returns the empty sequence, and the caller
    of a planner with a valid width gets that empty sequence, not an error. *)
Theorem generatePath_degenerate_region (planner : SweepPathPlanner) :
  (length (vertices (area_to_mow_ planner)) < 3)%nat
  \/ max_coord Point.y (vertices (area_to_mow_ planner))
     <= min_coord Point.y (vertices (area_to_mow_ planner)) ->
  snd (generatePath planner) = []
  /\ getWaypoints (fst (generatePath planner)) = []
  /\ (0 < cutting_width_ planner ->
      plan (area_to_mow_ planner) (cutting_width_ planner) = inr []).
Proof.
  intros H; unfold generatePath, getWaypoints, plan, construct; cbn [fst snd waypoints_].
  rewrite (sweep_path_degenerate _ _ H); repeat split.
  intros Hw; destruct (leb_spec (cutting_width_ planner) 0); [lra |].
  unfold generatePath; cbn [snd area_to_mow_ cutting_width_].
  rewrite (sweep_path_degenerate _ _ H); reflexivity.
Qed.

(** C3 on a segment and on four vertices in a row. *)
Lemma generatePath_degenerate_region_witness :
  snd (generatePath
         (mkSweepPathPlanner (mkPolygon [Point.mk 0 0; Point.mk 5 0]) 2 [])) = []
  /\ snd (generatePath
            (mkSweepPathPlanner
               (mkPolygon [Point.mk 0 3; Point.mk 1 3; Point.mk 4 3; Point.mk 5 3])
               2 [])) = [].
Proof.
  split.
  - apply generatePath_degenerate_region; left; simpl; lia.
  - apply generatePath_degenerate_region; right; simpl.
    unfold Rmax, Rmin; repeat (destruct (Rle_dec _ _); try lra).
Defined.

(** C4: for every width <= 0 the construction of the planner fails with
    InvalidWidth, so that a caller gets the error and no waypoint sequence,
    not even an empty one. *)
Theorem nonpositive_width_is_rejected (area : Polygon) (width : R) :
  width <= 0 ->
  construct area width = inl InvalidWidth
  /\ plan area width = inl InvalidWidth
  /\ forall path, plan area width <> inr path.
Proof.
  intros Hw; unfold plan, construct.
  destruct (leb_spec width 0); [| lra].
  repeat split; discriminate.
Qed.

Lemma nonpositive_width_is_rejected_witness :
  plan (mkPolygon [Point.mk 0 0; Point.mk 0 10; Point.mk 5 10; Point.mk 5 0]) 0
  = inl InvalidWidth.
Proof.
  apply nonpositive_width_is_rejected; lra.
Defined.

(** Calling generatePath again on the planner it returned gives the same
    waypoints, and getWaypoints reads them back. *)
Lemma generatePath_idempotent (planner : SweepPathPlanner) :
  snd (generatePath (fst (generatePath planner))) = snd (generatePath planner)
  /\ getWaypoints (fst (generatePath planner)) = snd (generatePath planner).
Proof. split; reflexivity. Qed.

End PlannerFacts.

(** ** robot.cpp *)

Section RobotFacts.
Import Geometry.

Lemma displacement_is_zero_iff (current target : Point) :
  Double.neqb (Point.x target - Point.x current) 0
  || Double.neqb (Point.y target - Point.y current) 0 = false
  <-> target = current.
Proof.
  rewrite point_eq_iff, orb_false_iff; unfold Double.neqb.
  destruct (eqb_spec (Point.x target - Point.x current) 0),
           (eqb_spec (Point.y target - Point.y current) 0);
    simpl; split; intros [H1 H2]; try discriminate; split;
    try reflexivity; lra.
Qed.

(** The bearing of the positive x axis is 0 degrees, that of the positive y
    axis 90 degrees. *)
Lemma atan2_axes (d : R) :
  0 < d ->
  Robot.atan2 0 d * (180 / Robot.M_PI) = 0
  /\ Robot.atan2 d 0 * (180 / Robot.M_PI) = 90.
Proof.
  intros Hd; unfold Robot.atan2, Robot.M_PI; split.
  - destruct (ltb_spec 0 d); [| lra].
    unfold Rdiv at 1; rewrite Rmult_0_l, atan_0; ring.
  - destruct (ltb_spec 0 0); [lra |].
    destruct (ltb_spec 0 d); [| lra].
    field; apply PI_neq0.
Qed.

(** C9: moveTo sets the position to the target; when the target differs from
    the current position the orientation becomes atan2 (delta_y, delta_x) in
    degrees, the displacement taken from the previous position to the target
    and 0 degrees being the positive x axis; when the target is the current
    position the orientation stays as it was. *)
Theorem moveTo_updates_pose (robot : Robot.t) (target : Point) :
  Robot.getPosition (fst (Robot.moveTo robot target)) = target
  /\ (target <> Robot.getPosition robot ->
      Robot.getOrientation (fst (Robot.moveTo robot target))
      = Robot.atan2 (Point.y target - Point.y (Robot.getPosition robot))
                    (Point.x target - Point.x (Robot.getPosition robot))
        * (180 / Robot.M_PI))
  /\ (target = Robot.getPosition robot ->
      Robot.getOrientation (fst (Robot.moveTo robot target))
      = Robot.getOrientation robot)
  /\ (Point.y target = Point.y (Robot.getPosition robot) ->
      Point.x (Robot.getPosition robot) < Point.x target ->
      Robot.getOrientation (fst (Robot.moveTo robot target)) = 0).
Proof.
  unfold Robot.moveTo, Robot.getPosition, Robot.getOrientation;
    cbn [fst Robot.current_position_ Robot.current_orientation_deg_].
  pose proof (displacement_is_zero_iff (Robot.current_position_ robot) target)
    as Hzero.
  destruct (Double.neqb (Point.x target - Point.x (Robot.current_position_ robot)) 0
            || Double.neqb (Point.y target - Point.y (Robot.current_position_ robot)) 0)
    eqn:Hmoved.
  - repeat split; try reflexivity.
    + intros Hsame; apply Hzero in Hsame; discriminate.
    + intros Hy Hx; rewrite Hy.
      replace (Point.y (Robot.current_position_ robot)
               - Point.y (Robot.current_position_ robot)) with 0 by ring.
      apply atan2_axes; lra.
  - assert (Hsame : target = Robot.current_position_ robot)
      by (apply Hzero; reflexivity).
    repeat split; try reflexivity.
    + intros Hdiff; contradiction.
    + intros _ Hx; rewrite Hsame in Hx; lra.
Qed.

(** C9 on one robot: from (0, 0) facing 30 degrees, a move to (0, 2) ends at
    (0, 2) facing 90 degrees, and a move to (0, 0) leaves it facing 30. *)
Lemma moveTo_updates_pose_witness :
  Robot.getPosition (fst (Robot.moveTo (Robot.mk (Point.mk 0 0) 30) (Point.mk 0 2)))
  = Point.mk 0 2
  /\ Robot.getOrientation
       (fst (Robot.moveTo (Robot.mk (Point.mk 0 0) 30) (Point.mk 0 2))) = 90
  /\ Robot.getOrientation
       (fst (Robot.moveTo (Robot.mk (Point.mk 0 0) 30) (Point.mk 0 0))) = 30.
Proof.
  destruct (moveTo_updates_pose (Robot.mk (Point.mk 0 0) 30) (Point.mk 0 2))
    as (Hpos & Hturn & _ & _).
  destruct (moveTo_updates_pose (Robot.mk (Point.mk 0 0) 30) (Point.mk 0 0))
    as (_ & _ & Hstay & _).
  split; [exact Hpos |]; split; [| apply Hstay; reflexivity].
  rewrite Hturn.
  - simpl Robot.getPosition; simpl Point.x; simpl Point.y.
    replace (2 - 0) with 2 by ring; replace (0 - 0) with 0 by ring.
    apply atan2_axes; lra.
  - simpl; intros H; apply (f_equal Point.y) in H; simpl in H; lra.
Defined.

(** X15: driving the robot through a path that is not empty leaves it at the
    last waypoint. *)
Lemma drive_ends_at_last_waypoint (waypoints : list Point) :
  forall (robot : Robot.t) (d : Point),
    waypoints <> [] ->
    Robot.getPosition (fst (Simulation.drive robot waypoints))
    = last waypoints d.
Proof.
  induction waypoints as [| w rest IH]; intros robot d Hne; [congruence |].
  cbn [Simulation.drive].
  destruct (Robot.moveTo robot w) as [robot' printed] eqn:Emove.
  destruct (Simulation.drive robot' rest) as [robot'' printed'] eqn:Edrive.
  destruct rest as [| w' rest'].
  - simpl in Edrive; injection Edrive as <- _.
    unfold Robot.moveTo in Emove; injection Emove as <- _; reflexivity.
  - change (last (w :: w' :: rest') d) with (last (w' :: rest') d).
    rewrite <- (IH robot' d) by discriminate.
    rewrite Edrive; reflexivity.
Qed.

End RobotFacts.

(** * Further properties of the sources *)

(** ** test_planner.cpp: are_doubles_equal *)

Section TestSupportFacts.
Import TestSupport.

(** X4: are_doubles_equal is symmetric in the two numbers; a number equals
    itself exactly when epsilon is positive; with epsilon <= 0 no two numbers
    are equal. *)
Theorem are_doubles_equal_basic (a b epsilon : R) :
  are_doubles_equal a b epsilon = are_doubles_equal b a epsilon
  /\ (are_doubles_equal a a epsilon = true <-> 0 < epsilon)
  /\ (epsilon <= 0 -> are_doubles_equal a b epsilon = false).
Proof.
  unfold are_doubles_equal; repeat split.
  - rewrite (Rabs_minus_sym a b); reflexivity.
  - replace (a - a) with 0 by ring; rewrite Rabs_R0.
    destruct (ltb_spec 0 epsilon); [auto | discriminate].
  - replace (a - a) with 0 by ring; rewrite Rabs_R0.
    destruct (ltb_spec 0 epsilon); [reflexivity | contradiction].
  - intros Heps; pose proof (Rabs_pos (a - b)).
    destruct (ltb_spec (Rabs (a - b)) epsilon); [lra | reflexivity].
Qed.

End TestSupportFacts.

(** ** geometry.h: further properties of isInside *)

Section InsideFacts.
Import Geometry EdgeLoop.

(** The loop body when [p] is on neither boundary test of the edge. *)
Lemma edge_step_off_boundary (p a b : Point) (inside : bool) :
  on_horizontal_segment p a b = false ->
  on_vertical_segment p a b = false ->
  edge_step p a b inside
  = Some (Continue
            (if crosses p a b
                && Double.gtb
                     ((Point.y p - Point.y a) * (Point.x b - Point.x a)
                      / (Point.y b - Point.y a) + Point.x a)
                     (Point.x p)
             then negb inside else inside)).
Proof.
  intros Hh Hv; unfold edge_step; rewrite Hh, Hv.
  destruct (crosses p a b) eqn:Hc; [| reflexivity].
  rewrite (crosses_x_intersection _ _ _ Hc); reflexivity.
Qed.

(** *** The loop when no iteration returns *)

Lemma nth_mod_in (vs : list Point) (i : nat) (d : Point) :
  vs <> [] -> In (nth (i mod length vs) vs d) vs.
Proof.
  intros Hvs; apply nth_In, Nat.mod_upper_bound.
  destruct vs; simpl; congruence.
Qed.

Lemma end_vertex_snoc (vs : list Point) (n i : nat) :
  forall indices p1,
    end_vertex vs n (indices ++ [i]) p1
    = nth (i mod n) vs (end_vertex vs n indices p1).
Proof.
  induction indices as [| j rest IH]; intros p1; simpl;
    [reflexivity | apply IH].
Qed.

(** The loop of [isInside] ends where it started, at [vertices[0]]. *)
Lemma end_vertex_closed (v0 : Point) (rest : list Point) :
  end_vertex (v0 :: rest) (length (v0 :: rest))
    (seq 0 (S (length (v0 :: rest)))) v0 = v0.
Proof.
  rewrite seq_S, end_vertex_snoc, Nat.add_0_l, Nat.Div0.mod_same.
  reflexivity.
Qed.

(** If every loop body over the vertices changes the flag by the difference
    of a quantity [phi] between its endpoints, the loop changes it by the
    difference of [phi] between its first and its last vertex. *)
Lemma edge_loop_telescopes (p : Point) (vs : list Point) (phi : Point -> bool) :
  vs <> [] ->
  (forall a b inside, In a vs -> In b vs ->
     edge_step p a b inside
     = Some (Continue (xorb inside (xorb (phi a) (phi b))))) ->
  forall indices p1 inside,
    In p1 vs ->
    edge_loop p vs (length vs) indices p1 inside
    = Some (xorb inside
              (xorb (phi p1) (phi (end_vertex vs (length vs) indices p1)))).
Proof.
  intros Hvs Hstep; induction indices as [| i rest IH];
    intros p1 inside Hp1; simpl.
  - rewrite xorb_nilpotent, xorb_false_r; reflexivity.
  - pose proof (nth_mod_in vs i p1 Hvs) as Hp2.
    rewrite (Hstep _ _ inside Hp1 Hp2), (IH _ _ Hp2).
    f_equal.
    destruct inside, (phi p1), (phi (nth (i mod length vs) vs p1)),
      (phi (end_vertex vs (length vs) rest (nth (i mod length vs) vs p1)));
      reflexivity.
Qed.

(** A closed loop of such bodies leaves the flag false. *)
Lemma isInside_telescopes (p : Point) (polygon : Polygon) (phi : Point -> bool) :
  (forall a b inside, In a (vertices polygon) -> In b (vertices polygon) ->
     edge_step p a b inside
     = Some (Continue (xorb inside (xorb (phi a) (phi b))))) ->
  isInside p polygon = Some false.
Proof.
  intros Hstep; unfold isInside.
  destruct (length (vertices polygon) <? 3)%nat; [reflexivity |].
  destruct (vertices polygon) as [| v0 rest] eqn:Evs; [reflexivity |].
  rewrite (edge_loop_telescopes p (v0 :: rest) phi);
    [| discriminate | exact Hstep | left; reflexivity].
  rewrite end_vertex_closed, xorb_nilpotent; reflexivity.
Qed.

(** *** Points above and below all vertices *)

Lemma isInside_above_all (p : Point) (polygon : Polygon) :
  (forall v, In v (vertices polygon) -> Point.y v < Point.y p) ->
  isInside p polygon = Some false.
Proof.
  intros Hall; apply (isInside_telescopes p polygon (fun _ => false)).
  intros a b inside Ha Hb; apply Hall in Ha, Hb.
  rewrite edge_step_off_boundary.
  - destruct (crosses p a b) eqn:Hc; simpl; [| destruct inside; reflexivity].
    apply crosses_iff in Hc; lra.
  - destruct (on_horizontal_segment p a b) eqn:E; [| reflexivity].
    apply on_horizontal_segment_iff in E; unfold lies_on_horizontal in E; lra.
  - destruct (on_vertical_segment p a b) eqn:E; [| reflexivity].
    apply on_vertical_segment_iff in E; unfold lies_on_vertical in E.
    pose proof (Rmax_lub_lt _ _ _ Ha Hb); lra.
Qed.

Lemma isInside_below_all (p : Point) (polygon : Polygon) :
  (forall v, In v (vertices polygon) -> Point.y p < Point.y v) ->
  isInside p polygon = Some false.
Proof.
  intros Hall; apply (isInside_telescopes p polygon (fun _ => false)).
  intros a b inside Ha Hb; apply Hall in Ha, Hb.
  rewrite edge_step_off_boundary.
  - destruct (crosses p a b) eqn:Hc; simpl; [| destruct inside; reflexivity].
    apply crosses_iff in Hc; lra.
  - destruct (on_horizontal_segment p a b) eqn:E; [| reflexivity].
    apply on_horizontal_segment_iff in E; unfold lies_on_horizontal in E; lra.
  - destruct (on_vertical_segment p a b) eqn:E; [| reflexivity].
    apply on_vertical_segment_iff in E; unfold lies_on_vertical in E.
    pose proof (Rmin_glb_lt _ _ _ Ha Hb); lra.
Qed.

(** X6: a point strictly above every vertex, or strictly below every
    vertex, is outside: isInside returns false for it, for every polygon.
    No boundary test matches and no edge passes the crossing test. *)
Theorem isInside_outside_vertical_extent (p : Point) (polygon : Polygon) :
  (forall v, In v (vertices polygon) -> Point.y p < Point.y v)
  \/ (forall v, In v (vertices polygon) -> Point.y v < Point.y p) ->
  isInside p polygon = Some false.
Proof.
  intros [H | H].
  - apply isInside_below_all, H.
  - apply isInside_above_all, H.
Qed.

Lemma isInside_outside_vertical_extent_witness :
  isInside (Point.mk 2 5) TestPlanner.l_shape = Some false.
Proof.
  apply isInside_outside_vertical_extent; right.
  unfold TestPlanner.l_shape; simpl.
  intros v [<- | [<- | [<- | [<- | [<- | [<- | []]]]]]]; simpl; lra.
Defined.

End InsideFacts.

(** ** geometry.h: isInside on binary64 numbers *)

Section Binary64InsideFacts.
Import PrimFloat SpecFloat FloatOps FloatAxioms.
Import Binary64 SpecFacts.

(** *** Finite numbers are ordered by their ranks *)

Lemma digits2_pos_size m : digits2_pos m = Pos.size m.
Proof. induction m; simpl; congruence. Qed.

Lemma size_bounds m :
  (2 ^ (Zpos (Pos.size m) - 1) <= Zpos m < 2 ^ Zpos (Pos.size m))%Z.
Proof.
  pose proof (Pos.size_gt m) as Hgt; pose proof (Pos.size_le m) as Hle.
  apply Pos2Z.pos_lt_pos in Hgt. apply Pos2Z.pos_le_pos in Hle.
  rewrite Pos2Z.inj_pow in Hgt, Hle.
  split; [| exact Hgt].
  replace (Zpos (Pos.size m)) with (Z.succ (Zpos (Pos.size m) - 1)) in Hle by lia.
  rewrite Z.pow_succ_r in Hle by lia.
  assert (Hx : (Zpos m~0 = 2 * Zpos m)%Z) by reflexivity.
  rewrite Hx in Hle; lia.
Qed.

Lemma valid_finite_bounds s m e :
  valid_binary (S754_finite s m e) = true ->
  (Zpos m < 2 ^ 53 /\ -1074 <= e <= 971 /\ (-1074 < e -> 2 ^ 52 <= Zpos m))%Z.
Proof.
  unfold valid_binary, SpecFloat.valid_binary, bounded, canonical_mantissa, fexp, emin, prec, emax.
  rewrite andb_true_iff, Z.eqb_eq, Z.leb_le, digits2_pos_size.
  intros [Hc He].
  pose proof (size_bounds m) as [Hlo Hhi].
  set (d := Zpos (Pos.size m)) in *.
  assert (Hd : (d <= 53)%Z) by lia.
  assert (H53 : (2 ^ d <= 2 ^ 53)%Z) by (apply Z.pow_le_mono_r; lia).
  split; [lia |]. split; [lia |].
  intros Hn. assert (d = 53)%Z by lia.
  replace (d - 1)%Z with 52%Z in Hlo by lia. exact Hlo.
Qed.

Lemma SFcompare_rank a b :
  valid_binary a = true -> valid_binary b = true ->
  is_number a -> is_number b ->
  SFcompare a b = Some (rank a ?= rank b)%Z.
Proof.
  destruct a as [sa | sa | | sa ma ea], b as [sb | sb | | sb mb eb];
    cbn [SFcompare rank is_number]; try tauto; intros Va Vb _ _.
  - apply valid_finite_bounds in Vb; destruct Vb as (Hm & He & _).
    f_equal; symmetry; destruct sb; cbn [cond_Zopp].
    + apply Z.compare_gt_iff; nia.
    + apply Z.compare_lt_iff; nia.
  - apply valid_finite_bounds in Va; destruct Va as (Hm & He & _).
    f_equal; symmetry; destruct sa; cbn [cond_Zopp].
    + apply Z.compare_lt_iff; nia.
    + apply Z.compare_gt_iff; nia.
  - apply valid_finite_bounds in Va, Vb.
    destruct Va as (Hma & Hea & _), Vb as (Hmb & Heb & _).
    rewrite Pos.compare_cont_spec; cbn [Pos.switch_Eq].
    change (Pos.compare ma mb) with (Z.compare (Zpos ma) (Zpos mb)).
    f_equal; symmetry.
    destruct sa, sb; cbn [cond_Zopp];
      destruct (Z.compare_spec ea eb) as [He | He | He];
      try destruct (Z.compare_spec (Zpos ma) (Zpos mb)) as [Hm | Hm | Hm];
      cbn [CompOpp];
      first [apply Z.compare_eq_iff | apply Z.compare_lt_iff | apply Z.compare_gt_iff];
      nia.
Qed.

(** *** Comparisons of finite numbers are comparisons of their ranks *)

Lemma finite_compare (a b : float) :
  finite a = true -> finite b = true ->
  SFcompare (Prim2SF a) (Prim2SF b) = Some (rk a ?= rk b)%Z.
Proof.
  intros Ha Hb; apply SFcompare_rank;
    try apply Prim2SF_valid; apply finite_is_number; assumption.
Qed.

Lemma ltb_rank (a b : float) :
  finite a = true -> finite b = true -> (a <? b)%float = (rk a <? rk b)%Z.
Proof.
  intros Ha Hb; rewrite ltb_spec; unfold SFltb, Z.ltb.
  rewrite (finite_compare a b Ha Hb); reflexivity.
Qed.

Lemma leb_rank (a b : float) :
  finite a = true -> finite b = true -> (a <=? b)%float = (rk a <=? rk b)%Z.
Proof.
  intros Ha Hb; rewrite leb_spec; unfold SFleb, Z.leb.
  rewrite (finite_compare a b Ha Hb); destruct (rk a ?= rk b)%Z; reflexivity.
Qed.

Lemma eqb_rank (a b : float) :
  finite a = true -> finite b = true -> (a =? b)%float = (rk a =? rk b)%Z.
Proof.
  intros Ha Hb; rewrite eqb_spec; unfold SFeqb.
  rewrite (finite_compare a b Ha Hb).
  destruct (Z.eqb_spec (rk a) (rk b)) as [H | H].
  - rewrite H, Z.compare_refl; reflexivity.
  - destruct (Z.compare_spec (rk a) (rk b)); try reflexivity; contradiction.
Qed.

(** *** Arithmetic with a zero operand is exact *)

Lemma SFmul_zero_r u z : is_number u -> is_zero z -> is_zero (SF64mul u z).
Proof. destruct u, z; simpl; tauto. Qed.

Lemma SFdiv_zero_l z d :
  is_zero z -> not_nan d -> ~ is_zero d -> is_zero (SF64div z d).
Proof. destruct z, d; simpl; tauto. Qed.

Lemma SFadd_zero_l z a :
  is_zero z -> is_number a ->
  is_number (SF64add z a) /\ rank (SF64add z a) = rank a.
Proof.
  destruct z as [[] | | |], a as [[] | | | sa ma ea]; simpl; tauto.
Qed.

Lemma SFsub_zero a b :
  is_number a -> is_number b -> rank a = rank b ->
  valid_binary a = true -> valid_binary b = true -> is_zero (SF64sub b a).
Proof.
  intros Ha Hb Hr Va Vb.
  assert (He : SFeqb a b = true).
  { unfold SFeqb; rewrite (SFcompare_rank a b Va Vb Ha Hb), Hr, Z.compare_refl.
    reflexivity. }
  destruct (SFsub_eq a b Ha Hb He) as [s ->]; exact I.
Qed.

(** *** The difference of two distinct finite numbers is not zero *)

Lemma shr_1_half mrs :
  (0 <= shr_m mrs)%Z -> shr_m (shr_1 mrs) = (shr_m mrs / 2)%Z.
Proof.
  destruct mrs as [m r s]; cbn [shr_m]; intros H.
  rewrite <- Z.div2_div.
  destruct m as [| p | p]; [reflexivity | | lia].
  destruct p; reflexivity.
Qed.

Lemma pow2_double p : (2 ^ Zpos p~0 = 2 ^ Zpos p * 2 ^ Zpos p)%Z.
Proof. rewrite Pos2Z.inj_xO, <- Z.pow_add_r by lia; f_equal; lia. Qed.

Lemma pow2_double_succ p : (2 ^ Zpos p~1 = 2 * (2 ^ Zpos p * 2 ^ Zpos p))%Z.
Proof.
  rewrite Pos2Z.inj_xI, <- Z.pow_add_r, <- Z.pow_succ_r by lia; f_equal; lia.
Qed.

Lemma iter_shr_1_div p : forall mrs,
  (0 <= shr_m mrs)%Z ->
  shr_m (iter_pos shr_1 p mrs) = (shr_m mrs / 2 ^ Zpos p)%Z.
Proof.
  assert (Hpow : forall q, (0 < 2 ^ Zpos q)%Z)
    by (intros q; apply Z.pow_pos_nonneg; lia).
  induction p as [p IH | p IH |]; intros mrs H; cbn [iter_pos].
  - assert (H1 : (0 <= shr_m (shr_1 mrs))%Z) by (apply shr_1_nonneg; exact H).
    assert (H2 : (0 <= shr_m (iter_pos shr_1 p (shr_1 mrs)))%Z).
    { apply (iter_pos_invariant _ (fun m => (0 <= shr_m m)%Z));
        [apply shr_1_nonneg | exact H1]. }
    pose proof (Hpow p).
    rewrite (IH _ H2), (IH _ H1), shr_1_half, pow2_double_succ by exact H.
    rewrite !Z.div_div by lia. reflexivity.
  - assert (H2 : (0 <= shr_m (iter_pos shr_1 p mrs))%Z).
    { apply (iter_pos_invariant _ (fun m => (0 <= shr_m m)%Z));
        [apply shr_1_nonneg | exact H]. }
    pose proof (Hpow p).
    rewrite (IH _ H2), (IH _ H), pow2_double.
    rewrite !Z.div_div by lia. reflexivity.
  - rewrite shr_1_half by exact H. reflexivity.
Qed.

Lemma Zdigits2_lower m : (0 < m)%Z -> (2 ^ (Zdigits2 m - 1) <= m)%Z.
Proof.
  destruct m as [| p | p]; try lia; intros _.
  cbn [Zdigits2]; rewrite digits2_pos_size; apply size_bounds.
Qed.

Lemma Zdigits2_pos m : (0 < m)%Z -> (0 < Zdigits2 m)%Z.
Proof. destruct m; simpl; lia. Qed.

(** Shifting out fewer bits than the number has leaves a positive number. *)
Lemma shr_positive m l e n :
  (0 < m)%Z -> (n < Zdigits2 m)%Z ->
  (0 < shr_m (fst (shr (shr_record_of_loc m l) e n)))%Z.
Proof.
  intros Hm Hn; unfold shr.
  destruct n as [| p | p]; cbn [fst]; rewrite ?shr_record_of_loc_m; try exact Hm.
  rewrite iter_shr_1_div by (rewrite shr_record_of_loc_m; lia).
  rewrite shr_record_of_loc_m.
  pose proof (Zdigits2_lower m Hm) as Hlo.
  assert (Hp : (2 ^ Zpos p <= 2 ^ (Zdigits2 m - 1))%Z)
    by (apply Z.pow_le_mono_r; lia).
  apply Z.div_str_pos; split; [apply Z.pow_pos_nonneg; lia | lia].
Qed.

Lemma shr_exponent mrs e n : (e <= snd (shr mrs e n))%Z.
Proof. unfold shr; destruct n; cbn [snd]; lia. Qed.

Lemma shr_fexp_positive m e l :
  (0 < m)%Z ->  (-1074 <= e)%Z ->
  (0 < shr_m (fst (shr_fexp prec emax m e l)))%Z
  /\ (-1074 <= snd (shr_fexp prec emax m e l))%Z.
Proof.
  intros Hm He; unfold shr_fexp; split.
  - apply shr_positive; [exact Hm |].
    pose proof (Zdigits2_pos m Hm).
    unfold fexp, emin, prec, emax; lia.
  - pose proof (shr_exponent (shr_record_of_loc m l) e
                  (fexp prec emax (Zdigits2 m + e) - e)); lia.
Qed.

Lemma round_nearest_even_positive m l :
  (0 < m)%Z -> (0 < round_nearest_even m l)%Z.
Proof.
  intros H; unfold round_nearest_even.
  destruct l as [| []]; try lia.
  destruct (Z.even m); lia.
Qed.

Lemma binary_round_aux_usable s m e l :
  (0 < m)%Z -> (-1074 <= e)%Z ->
  ~ unusable (binary_round_aux prec emax s m e l).
Proof.
  intros Hm He; unfold binary_round_aux.
  destruct (shr_fexp_positive m e l Hm He) as [H1 E1].
  destruct (shr_fexp prec emax m e l) as [mrs' e']; cbn [fst snd] in H1, E1.
  destruct (shr_fexp_positive _ e' loc_Exact
              (round_nearest_even_positive _ (loc_of_shr_record mrs') H1) E1)
    as [H2 _].
  destruct (shr_fexp prec emax _ e' loc_Exact) as [mrs'' e'']; cbn [fst] in H2.
  destruct (shr_m mrs''); try lia.
  destruct (Z.leb e'' (emax - prec)); simpl; tauto.
Qed.

Lemma shl_align_exponent m e e' :
  snd (shl_align m e e') = Z.min e e'.
Proof.
  unfold shl_align; destruct (e' - e)%Z eqn:H; cbn [snd]; lia.
Qed.

Lemma binary_normalize_usable n e :
  n <> 0%Z -> (-1074 <= e)%Z ->
  ~ unusable (binary_normalize prec emax n e false).
Proof.
  intros Hn He.
  assert (Hr : forall s m, ~ unusable (binary_round prec emax s m e)).
  { intros s m; unfold binary_round.
    pose proof (shl_align_exponent m e (fexp prec emax (Zpos (digits2_pos m) + e))) as Hs.
    destruct (shl_align m e _) as [mz ez]; cbn [snd] in Hs.
    apply binary_round_aux_usable; [lia |].
    unfold fexp, emin, prec, emax in Hs; lia. }
  destruct n; cbn [binary_normalize]; [contradiction | apply Hr | apply Hr].
Qed.

Lemma shl_align_value m e e' :
  (e' <= e)%Z -> Zpos (fst (shl_align m e e')) = (Zpos m * 2 ^ (e - e'))%Z.
Proof.
  intros H; unfold shl_align.
  destruct (e' - e)%Z as [| d | d] eqn:Hd; cbn [fst]; try lia.
  - replace (e - e')%Z with 0%Z by lia; lia.
  - replace (e - e')%Z with (Zpos d) by lia.
    change (Pos.iter xO m d) with (shift_pos d m).
    rewrite shift_pos_correct, Z.pow_pos_fold; lia.
Qed.

Lemma aligned_difference_nonzero sa ma ea sb mb eb :
  valid_binary (S754_finite sa ma ea) = true ->
  valid_binary (S754_finite sb mb eb) = true ->
  rank (S754_finite sa ma ea) <> rank (S754_finite sb mb eb) ->
  (cond_Zopp sb (Zpos (fst (shl_align mb eb (Z.min eb ea))))
   - cond_Zopp sa (Zpos (fst (shl_align ma ea (Z.min eb ea)))) <> 0)%Z.
Proof.
  intros Va Vb Hr.
  apply valid_finite_bounds in Va, Vb.
  destruct Va as (Hma & Hea & Hna), Vb as (Hmb & Heb & Hnb).
  rewrite !shl_align_value by lia.
  cbn [rank] in Hr.
  assert (Hpow : forall k, (0 < k)%Z -> (2 <= 2 ^ k)%Z).
  { intros k Hk; change 2%Z with (2 ^ 1)%Z at 1; apply Z.pow_le_mono_r; lia. }
  destruct (Z.lt_trichotomy ea eb) as [Hlt | [Heq | Hgt]].
  - rewrite Z.min_r by lia.
    replace (ea - ea)%Z with 0%Z by lia.
    pose proof (Hpow (eb - ea)%Z ltac:(lia)) as H2.
    pose proof (Hnb ltac:(lia)) as H52.
    assert (Hbig : (2 ^ 53 <= Zpos mb * 2 ^ (eb - ea))%Z) by nia.
    destruct sa, sb; cbn [cond_Zopp]; lia.
  - subst eb; rewrite Z.min_id, Z.sub_diag.
    destruct sa, sb; cbn [cond_Zopp] in *; lia.
  - rewrite Z.min_l by lia.
    replace (eb - eb)%Z with 0%Z by lia.
    pose proof (Hpow (ea - eb)%Z ltac:(lia)) as H2.
    pose proof (Hna ltac:(lia)) as H52.
    assert (Hbig : (2 ^ 53 <= Zpos ma * 2 ^ (ea - eb))%Z) by nia.
    destruct sa, sb; cbn [cond_Zopp]; lia.
Qed.

(** Gradual underflow: the difference of two finite numbers that differ is
    neither zero nor NaN. *)
Lemma SFsub_usable a b :
  valid_binary a = true -> valid_binary b = true ->
  is_number a -> is_number b -> rank a <> rank b ->
  ~ unusable (SF64sub b a).
Proof.
  unfold SF64sub, SFsub.
  destruct a as [sa | sa | | sa ma ea], b as [sb | sb | | sb mb eb];
    cbn [is_number]; try tauto; intros Va Vb _ _ Hr.
  cbv zeta; apply binary_normalize_usable.
  - apply aligned_difference_nonzero; assumption.
  - apply valid_finite_bounds in Va, Vb; lia.
Qed.

(** *** The intersection with a vertical edge *)

Lemma finite_of_number (a : float) : is_number (Prim2SF a) -> finite a = true.
Proof. unfold finite; destruct (Prim2SF a); simpl; tauto. Qed.

(** On an edge whose endpoints share their x and differ in y, the
    intersection formula returns that x (as a zero, if it is a zero),
    provided the difference [y - p1.y] does not overflow. *)
Lemma x_intersection_vertical_edge (p p1 p2 : Point) :
  finite_point p1 = true -> finite_point p2 = true ->
  rk (Point.x p1) = rk (Point.x p2) ->
  rk (Point.y p1) <> rk (Point.y p2) ->
  finite (Point.y p - Point.y p1) = true ->
  finite (x_intersection p p1 p2) = true
  /\ rk (x_intersection p p1 p2) = rk (Point.x p1).
Proof.
  unfold finite_point; rewrite !andb_true_iff.
  intros [H1x H1y] [H2x H2y] Hx Hy Hd.
  apply finite_is_number in H1x, H1y, H2x, H2y, Hd.
  assert (Hxi : is_number (Prim2SF (x_intersection p p1 p2))
                /\ rank (Prim2SF (x_intersection p p1 p2)) = rank (Prim2SF (Point.x p1))).
  { unfold x_intersection.
    rewrite add_spec, div_spec, mul_spec.
    rewrite sub_spec in Hd.
    apply SFadd_zero_l; [| exact H1x].
    apply SFdiv_zero_l.
    - apply SFmul_zero_r; [rewrite sub_spec; exact Hd |].
      rewrite sub_spec; apply SFsub_zero; try apply Prim2SF_valid; assumption.
    - rewrite sub_spec; apply SFsub_number; assumption.
    - rewrite sub_spec; intros Hz.
      apply (SFsub_usable (Prim2SF (Point.y p1)) (Prim2SF (Point.y p2)));
        try apply Prim2SF_valid; try assumption.
      revert Hz; generalize (SF64sub (Prim2SF (Point.y p2)) (Prim2SF (Point.y p1))).
      intros []; simpl; tauto. }
  destruct Hxi as [Hn Hrk]; split; [apply finite_of_number; exact Hn | exact Hrk].
Qed.

(** On doubles too the intersection formula does not divide by zero: when
    the crossing test holds for finite points, the divisor [p2.y - p1.y] is
    neither zero nor NaN. *)
Lemma crossing_divisor_usable (p p1 p2 : Point) :
  finite_point p = true -> finite_point p1 = true -> finite_point p2 = true ->
  crosses p p1 p2 = true ->
  ~ unusable (Prim2SF (Point.y p2 - Point.y p1)).
Proof.
  unfold finite_point, crosses; rewrite !andb_true_iff.
  intros [_ Fy] [_ F1] [_ F2] Hc.
  assert (Hr : rk (Point.y p1) <> rk (Point.y p2)).
  { rewrite !ltb_rank, !leb_rank in Hc by assumption.
    apply orb_true_iff in Hc; rewrite !andb_true_iff in Hc.
    rewrite !Z.ltb_lt, !Z.leb_le in Hc; lia. }
  rewrite sub_spec; apply SFsub_usable;
    try apply Prim2SF_valid; try apply finite_is_number; assumption.
Qed.

(** *** Rectangles and the L-shape *)

(** Turn every comparison of finite numbers in the goal into a comparison of
    ranks and decide it, closing the impossible branches by arithmetic. *)
Ltac compare_ranks :=
  repeat first
    [ progress cbn [andb orb negb]
    | match goal with
      | |- context [PrimFloat.ltb ?a ?b] => rewrite (ltb_rank a b) by assumption
      | |- context [PrimFloat.leb ?a ?b] => rewrite (leb_rank a b) by assumption
      | |- context [PrimFloat.eqb ?a ?b] => rewrite (eqb_rank a b) by assumption
      end
    | match goal with
      | |- context [Z.ltb ?a ?b] => destruct (Z.ltb_spec a b); try lia
      | |- context [Z.leb ?a ?b] => destruct (Z.leb_spec a b); try lia
      | |- context [Z.eqb ?a ?b] => destruct (Z.eqb_spec a b); try lia
      end ];
  try reflexivity.

Lemma isInside_rectangle_clockwise (x0 y0 x1 y1 : float) (p : Point) :
  finite x0 = true -> finite y0 = true -> finite x1 = true -> finite y1 = true ->
  finite_point p = true ->
  (x0 <? x1)%float = true -> (y0 <? y1)%float = true ->
  finite (Point.y p - y0) = true -> finite (Point.y p - y1) = true ->
  isInside p (rectangle x0 y0 x1 y1) = in_box x0 y0 x1 y1 p.
Proof.
  intros Fx0 Fy0 Fx1 Fy1 Fp Hx Hy D0 D1.
  destruct p as [px py]; unfold finite_point in Fp; cbn [Point.x Point.y] in *.
  apply andb_true_iff in Fp; destruct Fp as [Fpx Fpy].
  rewrite ltb_rank in Hx, Hy by assumption; apply Z.ltb_lt in Hx, Hy.
  destruct (x_intersection_vertical_edge (Point.mk px py)
              (Point.mk x0 y0) (Point.mk x0 y1)) as [Fl Rl];
    [unfold finite_point; cbn; rewrite ?Fx0, ?Fy0, ?Fy1; reflexivity ..
    | reflexivity | cbn; lia | exact D0 |].
  destruct (x_intersection_vertical_edge (Point.mk px py)
              (Point.mk x1 y1) (Point.mk x1 y0)) as [Fr Rr];
    [unfold finite_point; cbn; rewrite ?Fx1, ?Fy0, ?Fy1; reflexivity ..
    | reflexivity | cbn; lia | exact D1 |].
  cbn [Point.x] in Rl, Rr.
  cbv -[x_intersection PrimFloat.ltb PrimFloat.leb PrimFloat.eqb].
  compare_ranks.
Qed.

Lemma isInside_rectangle_counterclockwise (x0 y0 x1 y1 : float) (p : Point) :
  finite x0 = true -> finite y0 = true -> finite x1 = true -> finite y1 = true ->
  finite_point p = true ->
  (x0 <? x1)%float = true -> (y0 <? y1)%float = true ->
  finite (Point.y p - y0) = true -> finite (Point.y p - y1) = true ->
  isInside p (rectangle_reversed x0 y0 x1 y1) = in_box x0 y0 x1 y1 p.
Proof.
  intros Fx0 Fy0 Fx1 Fy1 Fp Hx Hy D0 D1.
  destruct p as [px py]; unfold finite_point in Fp; cbn [Point.x Point.y] in *.
  apply andb_true_iff in Fp; destruct Fp as [Fpx Fpy].
  rewrite ltb_rank in Hx, Hy by assumption; apply Z.ltb_lt in Hx, Hy.
  destruct (x_intersection_vertical_edge (Point.mk px py)
              (Point.mk x1 y0) (Point.mk x1 y1)) as [Fl Rl];
    [unfold finite_point; cbn; rewrite ?Fx1, ?Fy0, ?Fy1; reflexivity ..
    | reflexivity | cbn; lia | exact D0 |].
  destruct (x_intersection_vertical_edge (Point.mk px py)
              (Point.mk x0 y1) (Point.mk x0 y0)) as [Fr Rr];
    [unfold finite_point; cbn; rewrite ?Fx0, ?Fy0, ?Fy1; reflexivity ..
    | reflexivity | cbn; lia | exact D1 |].
  cbn [Point.x] in Rl, Rr.
  cbv -[x_intersection PrimFloat.ltb PrimFloat.leb PrimFloat.eqb].
  compare_ranks.
Qed.

(** X7: for the axis-aligned rectangle from (x0, y0) to (x1, y1) with finite
    corners, x0 < x1 and y0 < y1, its corners listed in either direction,
    and for every finite point p whose differences p.y - y0 and p.y - y1 do
    not overflow, isInside returns true exactly for the points of the closed
    rectangle, boundary and corners included: its result is
    x0 <= p.x <= x1 && y0 <= p.y <= y1. *)
Theorem isInside_rectangle (x0 y0 x1 y1 : float) (p : Point) :
  finite x0 = true -> finite y0 = true -> finite x1 = true -> finite y1 = true ->
  finite_point p = true ->
  (x0 <? x1)%float = true -> (y0 <? y1)%float = true ->
  finite (Point.y p - y0) = true -> finite (Point.y p - y1) = true ->
  isInside p (rectangle x0 y0 x1 y1) = in_box x0 y0 x1 y1 p
  /\ isInside p (rectangle_reversed x0 y0 x1 y1) = in_box x0 y0 x1 y1 p.
Proof.
  intros; split;
    [apply isInside_rectangle_clockwise
    | apply isInside_rectangle_counterclockwise]; assumption.
Qed.

(** X7 on the square of the test: the corner (4, 4) is inside it. *)
Lemma isInside_rectangle_witness :
  isInside (Point.mk 4 4) (rectangle 0 0 4 4) = true.
Proof.
  rewrite (proj1 (isInside_rectangle 0 0 4 4 (Point.mk 4 4)
                   eq_refl eq_refl eq_refl eq_refl eq_refl eq_refl eq_refl
                   eq_refl eq_refl)).
  reflexivity.
Defined.

(** The premise on the differences cannot be dropped: in the rectangle from
    (0, -1.5 * 2^1023) to (1, 1.5 * 2^1023) the difference p.y - y1 of the
    interior point p = (0.5, -2^1023) overflows, the intersection with the
    right edge is NaN, and isInside answers false. *)
Example isInside_rectangle_overflow :
  in_box 0 (-0x1.8p1023) 1 0x1.8p1023 (Point.mk 0.5 (-0x1p1023)) = true
  /\ isInside (Point.mk 0.5 (-0x1p1023))
              (rectangle 0 (-0x1.8p1023) 1 0x1.8p1023) = false.
Proof. split; vm_compute; reflexivity. Qed.

(** Away from axis-aligned edges the intersection formula rounds: the point
    (0.1, 0.1) of the diagonal of the triangle (0,0), (3,3), (3,0) is
    classified outside, because 0.1 * 3 / 3 is above 0.1. *)
Example isInside_rounds_on_slanted_edge :
  isInside (Point.mk 0x1.999999999999ap-4 0x1.999999999999ap-4)
           (mkPolygon [Point.mk 0 0; Point.mk 3 3; Point.mk 3 0]) = false.
Proof. vm_compute; reflexivity. Qed.

(** X19: for the L-shaped hexagon with finite corners, x0 < x1 < x2 and
    y0 < y1 < y2, and for every finite point p whose differences p.y - y0,
    p.y - y1 and p.y - y2 do not overflow, isInside returns true exactly for
    the points of the two closed rectangles that make up the L, from
    (x0, y0) to (x1, y2) and from (x0, y0) to (x2, y1); the points of the
    cut-out corner are outside. *)
Theorem isInside_l_shape (x0 y0 x1 y1 x2 y2 : float) (p : Point) :
  finite x0 = true -> finite y0 = true -> finite x1 = true ->
  finite y1 = true -> finite x2 = true -> finite y2 = true ->
  finite_point p = true ->
  (x0 <? x1)%float = true -> (x1 <? x2)%float = true ->
  (y0 <? y1)%float = true -> (y1 <? y2)%float = true ->
  finite (Point.y p - y0) = true -> finite (Point.y p - y1) = true ->
  finite (Point.y p - y2) = true ->
  isInside p (l_shape x0 y0 x1 y1 x2 y2)
  = in_box x0 y0 x1 y2 p || in_box x0 y0 x2 y1 p.
Proof.
  intros Fx0 Fy0 Fx1 Fy1 Fx2 Fy2 Fp Hx01 Hx12 Hy01 Hy12 D0 D1 D2.
  destruct p as [px py]; unfold finite_point in Fp; cbn [Point.x Point.y] in *.
  apply andb_true_iff in Fp; destruct Fp as [Fpx Fpy].
  rewrite ltb_rank in Hx01, Hx12, Hy01, Hy12 by assumption.
  apply Z.ltb_lt in Hx01, Hx12, Hy01, Hy12.
  destruct (x_intersection_vertical_edge (Point.mk px py)
              (Point.mk x0 y0) (Point.mk x0 y2)) as [F0 R0];
    [unfold finite_point; cbn; rewrite ?Fx0, ?Fy0, ?Fy2; reflexivity ..
    | reflexivity | cbn; lia | exact D0 |].
  destruct (x_intersection_vertical_edge (Point.mk px py)
              (Point.mk x1 y2) (Point.mk x1 y1)) as [F1 R1];
    [unfold finite_point; cbn; rewrite ?Fx1, ?Fy1, ?Fy2; reflexivity ..
    | reflexivity | cbn; lia | exact D2 |].
  destruct (x_intersection_vertical_edge (Point.mk px py)
              (Point.mk x2 y1) (Point.mk x2 y0)) as [F2 R2];
    [unfold finite_point; cbn; rewrite ?Fx2, ?Fy0, ?Fy1; reflexivity ..
    | reflexivity | cbn; lia | exact D1 |].
  cbn [Point.x] in R0, R1, R2.
  cbv -[x_intersection PrimFloat.ltb PrimFloat.leb PrimFloat.eqb].
  compare_ranks.
Qed.

(** X19 on the L-shape of the test: (2, 1), on its inner horizontal edge, is
    inside. *)
Lemma isInside_l_shape_witness :
  isInside (Point.mk 2 1) (l_shape 0 0 1 1 3 3) = true.
Proof.
  rewrite (isInside_l_shape 0 0 1 1 3 3 (Point.mk 2 1)) by reflexivity.
  reflexivity.
Defined.

(** The assertions of testIsInside, on binary64 numbers. *)
Example testIsInside_binary64 :
  let square := rectangle 0 0 4 4 in
  let l := l_shape 0 0 1 1 3 3 in
  map (fun p => isInside p square)
      [Point.mk 2 2; Point.mk 1 3; Point.mk 5 2; Point.mk 2 5;
       Point.mk (-1) 2; Point.mk 2 (-1); Point.mk 0 2; Point.mk 2 0;
       Point.mk 4 2; Point.mk 2 4; Point.mk 0 0; Point.mk 4 4;
       Point.mk 100 100]
  = [true; true; false; false; false; false; true; true; true; true; true;
     true; false]
  /\ map (fun p => isInside p l)
         [Point.mk 0.5 2; Point.mk 2 0.5; Point.mk 0.5 0.5; Point.mk 1.5 1.5;
          Point.mk 1 2; Point.mk 2 1]
     = [true; true; true; false; true; true].
Proof. split; vm_compute; reflexivity. Qed.

End Binary64InsideFacts.

(** ** robot.cpp: further properties of moveTo *)

Section RobotMoves.
Import Geometry.

(** The bearing [std::atan2] returns for a vector that is not null. *)
Lemma atan2_range (y x : R) :
  x <> 0 \/ y <> 0 -> - PI < Robot.atan2 y x <= PI.
Proof.
  intros Hnz; unfold Robot.atan2.
  pose proof PI_RGT_0 as Hpi.
  pose proof (atan_bound (y / x)) as Hb.
  destruct (ltb_spec 0 x) as [Hx | Hx]; [lra |].
  destruct (ltb_spec x 0) as [Hx' | Hx'].
  - destruct (leb_spec 0 y) as [Hy | Hy].
    + assert (Hq : y / x <= 0).
      { pose proof (Rinv_lt_0_compat x Hx') as Hinv.
        unfold Rdiv; nra. }
      assert (atan (y / x) <= 0).
      { destruct Hq as [Hq | Hq].
        - apply Rlt_le; rewrite <- atan_0; apply atan_increasing, Hq.
        - rewrite Hq, atan_0; lra. }
      lra.
    + assert (Hq : 0 < y / x).
      { replace (y / x) with ((- y) * / (- x)) by (field; lra).
        apply Rmult_lt_0_compat; [lra | apply Rinv_0_lt_compat; lra]. }
      assert (0 < atan (y / x))
        by (rewrite <- atan_0; apply atan_increasing, Hq).
      lra.
  - destruct (ltb_spec 0 y); [lra |].
    destruct (ltb_spec y 0); [lra |].
    destruct Hnz; lra.
Qed.

Lemma degrees_per_radian_positive : 0 < 180 / Robot.M_PI.
Proof.
  unfold Robot.M_PI; apply Rdiv_lt_0_compat; [lra | apply PI_RGT_0].
Qed.

(** X10: after a move to a target that differs from the current position the
    orientation is at least -180 and at most 180 degrees.  Both ends are
    allowed: on doubles [std::atan2] returns -pi for a displacement along
    the negative x axis whose y is a negative zero, or just below that
    axis, and the orientation is then -180. *)
Theorem moveTo_orientation_range (robot : Robot.t) (target : Point) :
  target <> Robot.getPosition robot ->
  - 180 <= Robot.getOrientation (fst (Robot.moveTo robot target)) <= 180.
Proof.
  intros Hdiff.
  unfold Robot.moveTo, Robot.getPosition, Robot.getOrientation in *;
    cbn [fst Robot.current_orientation_deg_].
  pose proof (displacement_is_zero_iff (Robot.current_position_ robot) target)
    as Hzero.
  destruct (Double.neqb (Point.x target - Point.x (Robot.current_position_ robot)) 0
            || Double.neqb (Point.y target - Point.y (Robot.current_position_ robot)) 0)
    eqn:Hmoved; [| exfalso; apply Hdiff, Hzero; reflexivity].
  set (dx := Point.x target - Point.x (Robot.current_position_ robot)) in *.
  set (dy := Point.y target - Point.y (Robot.current_position_ robot)) in *.
  assert (Hnz : dx <> 0 \/ dy <> 0).
  { apply orb_true_iff in Hmoved; unfold Double.neqb in Hmoved.
    destruct (eqb_spec dx 0), (eqb_spec dy 0); simpl in Hmoved;
      destruct Hmoved; try discriminate; auto. }
  pose proof (atan2_range dy dx Hnz) as [Hlo Hhi].
  pose proof degrees_per_radian_positive as Hk.
  assert (Hpi : PI * (180 / Robot.M_PI) = 180)
    by (unfold Robot.M_PI; field; apply PI_neq0).
  set (k := 180 / Robot.M_PI) in *.
  assert (H1 : (- PI) * k < Robot.atan2 dy dx * k)
    by (apply Rmult_lt_compat_r; assumption).
  assert (H2 : Robot.atan2 dy dx * k <= PI * k)
    by (apply Rmult_le_compat_r; lra).
  lra.
Qed.

Lemma moveTo_orientation_range_witness :
  - 180 <= Robot.getOrientation
             (fst (Robot.moveTo (Robot.mk (Point.mk 0 0) 270) (Point.mk (-1) (-1))))
  <= 180.
Proof.
  apply moveTo_orientation_range; simpl.
  intros H; apply (f_equal Point.x) in H; simpl in H; lra.
Defined.

(** X11: a move along an axis leaves the robot facing 0 degrees when it went
    in the positive x direction, 90 in the positive y direction, 180 or -180
    in the negative x direction (-180 is what doubles give when the
    difference in y is a negative zero) and -90 in the negative y
    direction. *)
Theorem moveTo_axis_headings (robot : Robot.t) (target : Point) :
  (Point.y target = Point.y (Robot.getPosition robot) ->
   Point.x (Robot.getPosition robot) < Point.x target ->
   Robot.getOrientation (fst (Robot.moveTo robot target)) = 0)
  /\ (Point.x target = Point.x (Robot.getPosition robot) ->
      Point.y (Robot.getPosition robot) < Point.y target ->
      Robot.getOrientation (fst (Robot.moveTo robot target)) = 90)
  /\ (Point.y target = Point.y (Robot.getPosition robot) ->
      Point.x target < Point.x (Robot.getPosition robot) ->
      Robot.getOrientation (fst (Robot.moveTo robot target)) = 180
      \/ Robot.getOrientation (fst (Robot.moveTo robot target)) = - 180)
  /\ (Point.x target = Point.x (Robot.getPosition robot) ->
      Point.y target < Point.y (Robot.getPosition robot) ->
      Robot.getOrientation (fst (Robot.moveTo robot target)) = - 90).
Proof.
  unfold Robot.moveTo, Robot.getPosition, Robot.getOrientation;
    cbn [fst Robot.current_orientation_deg_].
  set (cx := Point.x (Robot.current_position_ robot)).
  set (cy := Point.y (Robot.current_position_ robot)).
  pose proof PI_neq0 as Hpi.
  repeat split; intros Hsame Hmove; rewrite Hsame;
    unfold Robot.atan2, Robot.M_PI, Double.neqb.
  - replace (cy - cy) with 0 by ring.
    destruct (eqb_spec (Point.x target - cx) 0); [lra |]; simpl.
    destruct (ltb_spec 0 (Point.x target - cx)); [| lra].
    unfold Rdiv at 1; rewrite Rmult_0_l, atan_0; ring.
  - replace (cx - cx) with 0 by ring.
    destruct (eqb_spec 0 0); [| lra].
    destruct (eqb_spec (Point.y target - cy) 0); [lra |]; simpl.
    destruct (ltb_spec 0 0); [lra |].
    destruct (ltb_spec 0 (Point.y target - cy)); [| lra].
    field; exact Hpi.
  - replace (cy - cy) with 0 by ring.
    destruct (eqb_spec (Point.x target - cx) 0); [lra |]; simpl.
    destruct (ltb_spec 0 (Point.x target - cx)); [lra |].
    destruct (ltb_spec (Point.x target - cx) 0); [| lra].
    destruct (leb_spec 0 0); [| lra].
    left; unfold Rdiv at 1; rewrite Rmult_0_l, atan_0; field; exact Hpi.
  - replace (cx - cx) with 0 by ring.
    destruct (eqb_spec 0 0); [| lra].
    destruct (eqb_spec (Point.y target - cy) 0); [lra |]; simpl.
    destruct (ltb_spec 0 0); [lra |].
    destruct (ltb_spec 0 (Point.y target - cy)); [lra |].
    destruct (ltb_spec (Point.y target - cy) 0); [| lra].
    field; exact Hpi.
Qed.

(** X11 on a robot at (5, 1) sent to (5, 3): it ends facing 90 degrees. *)
Lemma moveTo_axis_headings_witness :
  Robot.getOrientation
    (fst (Robot.moveTo (Robot.mk (Point.mk 5 1) 0) (Point.mk 5 3))) = 90.
Proof.
  apply (moveTo_axis_headings (Robot.mk (Point.mk 5 1) 0) (Point.mk 5 3));
    simpl; lra.
Defined.

(** X12: commanding the robot twice to the same target is the same as
    commanding it once: the second move changes neither position nor
    orientation, and reports a move from the target to itself. *)
Theorem moveTo_twice (robot : Robot.t) (target : Point) :
  Robot.moveTo (fst (Robot.moveTo robot target)) target
  = (fst (Robot.moveTo robot target),
     [Robot.Moving target target
        (Robot.getOrientation (fst (Robot.moveTo robot target)))]).
Proof.
  unfold Robot.moveTo at 1; unfold Robot.getOrientation.
  cbn [fst Robot.moveTo Robot.current_position_ Robot.current_orientation_deg_].
  unfold Double.neqb.
  destruct (eqb_spec (Point.x target - Point.x target) 0); [| lra].
  destruct (eqb_spec (Point.y target - Point.y target) 0); [| lra].
  reflexivity.
Qed.

(** *** The loop over the waypoints *)

(** X13: driving through one list of waypoints and then another is driving
    through both in a row: the robot ends the same and the status lines are
    those of the first drive followed by those of the second. *)
Theorem drive_app (first second : list Point) :
  forall robot,
    Simulation.drive robot (first ++ second)
    = (fst (Simulation.drive (fst (Simulation.drive robot first)) second),
       snd (Simulation.drive robot first)
       ++ snd (Simulation.drive (fst (Simulation.drive robot first)) second)).
Proof.
  induction first as [| w rest IH]; intros robot.
  - cbn [app Simulation.drive fst snd].
    destruct (Simulation.drive robot second); reflexivity.
  - rewrite <- app_comm_cons; cbn [Simulation.drive].
    destruct (Robot.moveTo robot w) as [robot' printed].
    rewrite IH.
    destruct (Simulation.drive robot' rest) as [robot'' printed'].
    cbn [fst snd]; rewrite app_assoc; reflexivity.
Qed.

(** X14: driving through a path prints one status line per waypoint, in
    order: the line for a waypoint reports the move from the waypoint before
    it (the robot's starting position for the first) to that waypoint. *)
Theorem drive_reports_each_leg (waypoints : list Point) :
  forall robot,
    map MingwTest.leg (snd (Simulation.drive robot waypoints))
    = combine (Robot.getPosition robot :: waypoints) waypoints
    /\ length (snd (Simulation.drive robot waypoints)) = length waypoints.
Proof.
  induction waypoints as [| w rest IH]; intros robot; [split; reflexivity |].
  cbn [Simulation.drive].
  destruct (Robot.moveTo robot w) as [robot' printed] eqn:Emove.
  destruct (IH robot') as [IHlegs IHlen].
  destruct (Simulation.drive robot' rest) as [robot'' printed'].
  unfold Robot.moveTo in Emove; injection Emove as <- <-.
  cbn [snd] in *; split.
  - cbn [app map MingwTest.leg combine]; f_equal; exact IHlegs.
  - simpl; f_equal; exact IHlen.
Qed.

(** X15 on a path of three waypoints. *)
Lemma drive_ends_at_last_waypoint_witness :
  Robot.getPosition
    (fst (Simulation.drive (Robot.mk (Point.mk 0 1) 0)
            [Point.mk 0 1; Point.mk 5 1; Point.mk 5 3]))
  = Point.mk 5 3.
Proof.
  apply (drive_ends_at_last_waypoint
           [Point.mk 0 1; Point.mk 5 1; Point.mk 5 3]
           (Robot.mk (Point.mk 0 1) 0) (Point.mk 0 0)).
  discriminate.
Defined.

End RobotMoves.

(** ** mingw_test.cpp: main *)

Section MainFacts.
Import Geometry MingwTest.

(** *** The extent loop of the diagnostic *)

Lemma y_extent_loop (lawn_vertices : list Point) :
  forall lo hi,
    let step := fun (acc : R * R) (v : Point) =>
                  let (min_y_coord, max_y_coord) := acc in
                  (if Double.ltb (Point.y v) min_y_coord
                   then Point.y v else min_y_coord,
                   if Double.gtb (Point.y v) max_y_coord
                   then Point.y v else max_y_coord) in
    let result := fold_left step lawn_vertices (lo, hi) in
    fst result <= lo /\ hi <= snd result
    /\ (forall v, In v lawn_vertices -> fst result <= Point.y v <= snd result)
    /\ (fst result = lo \/ exists v, In v lawn_vertices /\ Point.y v = fst result)
    /\ (snd result = hi \/ exists v, In v lawn_vertices /\ Point.y v = snd result).
Proof.
  induction lawn_vertices as [| a rest IH]; intros lo hi; cbv zeta.
  - simpl; repeat split; try lra; try tauto; left; reflexivity.
  - cbn [fold_left].
    set (lo' := if Double.ltb (Point.y a) lo then Point.y a else lo).
    set (hi' := if Double.gtb (Point.y a) hi then Point.y a else hi).
    assert (Hlo : lo' <= lo /\ lo' <= Point.y a /\ (lo' = lo \/ lo' = Point.y a)).
    { unfold lo'; destruct (ltb_spec (Point.y a) lo); repeat split; auto; lra. }
    assert (Hhi : hi <= hi' /\ Point.y a <= hi' /\ (hi' = hi \/ hi' = Point.y a)).
    { unfold hi', Double.gtb; destruct (ltb_spec hi (Point.y a));
        repeat split; auto; lra. }
    specialize (IH lo' hi'); cbv zeta in IH.
    destruct IH as (H1 & H2 & H3 & H4 & H5).
    destruct Hlo as (Hl1 & Hl2 & Hl3), Hhi as (Hh1 & Hh2 & Hh3).
    repeat split.
    + lra.
    + lra.
    + destruct H as [<- | Hv]; [lra | apply H3, Hv].
    + destruct H as [<- | Hv]; [lra | apply H3, Hv].
    + destruct H4 as [H4 | (v & Hv & H4)].
      * destruct Hl3 as [Hl3 | Hl3]; [left; congruence |].
        right; exists a; split; [left; reflexivity | congruence].
      * right; exists v; split; [right; exact Hv | exact H4].
    + destruct H5 as [H5 | (v & Hv & H5)].
      * destruct Hh3 as [Hh3 | Hh3]; [left; congruence |].
        right; exists a; split; [left; reflexivity | congruence].
      * right; exists v; split; [right; exact Hv | exact H5].
Qed.

Lemma y_extent_spans (lawn_vertices : list Point) (v0 : Point) :
  In v0 lawn_vertices ->
  spans_y lawn_vertices (fst (y_extent lawn_vertices v0))
          (snd (y_extent lawn_vertices v0)).
Proof.
  intros Hv0; unfold y_extent, spans_y.
  destruct (y_extent_loop lawn_vertices (Point.y v0) (Point.y v0))
    as (_ & _ & H3 & H4 & H5); cbv zeta in *.
  split; [exact H3 |]; split.
  - destruct H4 as [H4 | H4]; [exists v0; split; auto | exact H4].
  - destruct H5 as [H5 | H5]; [exists v0; split; auto | exact H5].
Qed.

Lemma spans_y_unique (lawn_vertices : list Point) (lo hi lo' hi' : R) :
  spans_y lawn_vertices lo hi -> spans_y lawn_vertices lo' hi' ->
  lo = lo' /\ hi = hi'.
Proof.
  intros (Hb & (a & Ha & Hlo) & (b & Hb' & Hhi))
         (Hc & (c & Hc' & Hlo') & (d & Hd & Hhi')).
  pose proof (Hb c Hc'); pose proof (Hb d Hd).
  pose proof (Hc a Ha); pose proof (Hc b Hb').
  split; lra.
Qed.

(** X16: the loop of the diagnostic computes the extent of the lawn in y:
    started at a vertex of the list, it ends with the least and the greatest
    y among the vertices. *)
Theorem y_extent_is_extent (lawn_vertices : list Point) (v0 : Point) (lo hi : R) :
  In v0 lawn_vertices ->
  (y_extent lawn_vertices v0 = (lo, hi) <-> spans_y lawn_vertices lo hi).
Proof.
  intros Hv0; pose proof (y_extent_spans lawn_vertices v0 Hv0) as Hs.
  split.
  - intros E; rewrite E in Hs; exact Hs.
  - intros H; destruct (spans_y_unique _ _ _ _ _ Hs H) as [<- <-].
    destruct (y_extent lawn_vertices v0); reflexivity.
Qed.

Lemma y_extent_is_extent_witness :
  y_extent [Point.mk 0 0; Point.mk 0 10; Point.mk 20 10; Point.mk 20 0]
           (Point.mk 0 0) = (0, 10).
Proof.
  apply y_extent_is_extent; [left; reflexivity |].
  unfold spans_y; simpl; repeat split.
  - destruct H as [<- | [<- | [<- | [<- | []]]]]; simpl; lra.
  - destruct H as [<- | [<- | [<- | [<- | []]]]]; simpl; lra.
  - exists (Point.mk 0 0); split; [auto | reflexivity].
  - exists (Point.mk 0 10); split; [auto | reflexivity].
Defined.

(** *** The diagnostic *)



(** *** The simulation *)

Lemma simulation_loop_ends_at_last (waypoints : list Point) :
  forall robot done total d,
    waypoints <> [] ->
    Robot.getPosition (fst (simulation_loop robot waypoints done total))
    = last waypoints d.
Proof.
  induction waypoints as [| w rest IH]; intros robot done total d Hne;
    [congruence |].
  cbn [simulation_loop].
  destruct (Robot.moveTo robot w) as [robot' status] eqn:Emove.
  destruct (simulation_loop robot' rest (S done) total)
    as [robot'' printed] eqn:Eloop.
  destruct rest as [| w' rest'].
  - simpl in Eloop; injection Eloop as <- _.
    unfold Robot.moveTo in Emove; injection Emove as <- _; reflexivity.
  - change (last (w :: w' :: rest') d) with (last (w' :: rest') d).
    rewrite <- (IH robot' (S done) total d) by discriminate.
    rewrite Eloop; reflexivity.
Qed.

Lemma diagnose_prints_no_robot (lawn_area : Polygon)
    (lawn_vertices : list Point) (cutting_width : R) (m : Robot.Message) :
  ~ In (RobotStatus m) (diagnose lawn_area lawn_vertices cutting_width).
Proof.
  unfold diagnose.
  destruct ((3 <=? length (vertices lawn_area))%nat
            && Double.gtb cutting_width 0); [| simpl; tauto].
  destruct lawn_vertices as [| v0 rest]; [simpl; tauto |].
  destruct (y_extent (v0 :: rest) v0) as [lo hi].
  destruct (Double.ltb (hi - lo) cutting_width && Double.gtb hi lo).
  - simpl; intros [H | [H | []]]; discriminate.
  - destruct (Double.leb hi lo); simpl; [intros [H | []]; discriminate | tauto].
Qed.

(** X18: what main prints around the planner.  When the planner returns no
    waypoint, no robot is built: no status line of a robot is printed.  When
    it returns waypoints, the robot is built at the first one facing 0
    degrees, the first command moves it from that waypoint to itself and
    leaves it facing 0, and the last line reports the last waypoint as the
    final position. *)
Theorem main_output (lawn_vertices : list Point) (cutting_width : R)
    (planner_path : Polygon -> R -> list Point) :
  (planner_path (mkPolygon lawn_vertices) cutting_width = [] ->
   forall m, ~ In (RobotStatus m) (main lawn_vertices cutting_width planner_path))
  /\ (forall w0 rest,
        planner_path (mkPolygon lawn_vertices) cutting_width = w0 :: rest ->
        exists printed orientation,
          main lawn_vertices cutting_width planner_path
          = [LawnDefined lawn_vertices cutting_width;
             PathGenerated (S (length rest));
             RobotStatus (Robot.Initialized w0 0);
             StartingSimulation;
             MovingToWaypoint 1 (S (length rest)) w0;
             RobotStatus (Robot.Moving w0 w0 0)]
            ++ printed
            ++ [SimulationComplete;
                FinalPose (last (w0 :: rest) w0) orientation]).
Proof.
  split.
  - intros Hempty m; unfold main; rewrite Hempty.
    cbn [app length]; intros [H | [H | [H | H]]]; try discriminate.
    exact (diagnose_prints_no_robot _ _ _ _ H).
  - intros w0 rest Hpath; unfold main; rewrite Hpath.
    cbn [Robot.construct length simulation_loop].
    pose proof (simulation_loop_ends_at_last (w0 :: rest)
                  (Robot.mk w0 0) 0 (S (length rest)) w0) as Hlast.
    cbn [simulation_loop] in Hlast.
    unfold Robot.moveTo at 1; unfold Robot.moveTo at 1 in Hlast.
    cbn [Robot.current_position_ Robot.current_orientation_deg_] in *.
    unfold Double.neqb in *.
    destruct (eqb_spec (Point.x w0 - Point.x w0) 0); [| lra].
    destruct (eqb_spec (Point.y w0 - Point.y w0) 0); [| lra].
    cbn [negb orb] in *.
    destruct (simulation_loop (Robot.mk w0 0) rest 1 (S (length rest)))
      as [robot' printed] eqn:Eloop.
    cbn [fst] in Hlast; rewrite (Hlast ltac:(discriminate)).
    exists printed, (Robot.getOrientation robot'); reflexivity.
Qed.

(** X18 with a planner that returns the two ends of one sweep. *)
Lemma main_output_witness :
  exists printed orientation,
    main [Point.mk 0 0; Point.mk 0 1; Point.mk 5 1; Point.mk 5 0] 2
         (fun _ _ => [Point.mk 0 (1 / 2); Point.mk 5 (1 / 2)])
    = [LawnDefined [Point.mk 0 0; Point.mk 0 1; Point.mk 5 1; Point.mk 5 0] 2;
       PathGenerated 2;
       RobotStatus (Robot.Initialized (Point.mk 0 (1 / 2)) 0);
       StartingSimulation;
       MovingToWaypoint 1 2 (Point.mk 0 (1 / 2));
       RobotStatus (Robot.Moving (Point.mk 0 (1 / 2)) (Point.mk 0 (1 / 2)) 0)]
      ++ printed
      ++ [SimulationComplete; FinalPose (Point.mk 5 (1 / 2)) orientation].
Proof.
  exact (proj2 (main_output
                  [Point.mk 0 0; Point.mk 0 1; Point.mk 5 1; Point.mk 5 0] 2
                  (fun _ _ => [Point.mk 0 (1 / 2); Point.mk 5 (1 / 2)]))
               (Point.mk 0 (1 / 2)) [Point.mk 5 (1 / 2)] eq_refl).
Defined.

End MainFacts.
